(** * cxx-async: the C++ side of the coroutine/future bridge

    A shallow embedding of [cxx-async/include/rust/cxx_async.h]: the
    future receiver, the manually reference-counted waker
    ([SuspendedCoroutine]), the stream awaiter and the promise, together
    with the properties of the bridge that the specification states.

    Objects that the header reaches through pointers or references live
    in explicit stores keyed by address; a method is a computation over
    the stores that can return, throw a C++ exception, end the process
    (a failed [CXXASYNC_ASSERT], [std::terminate]) or run into undefined
    behaviour (a dangling pointer, an inactive union member, a switch
    that falls off the end of a value-returning function). Calls that
    leave the header (the binding table, the continuation) are appended
    to a trace. *)

From Stdlib Require Import Ascii String ZArith Lia.
From stdpp Require Import base option list gmap strings.

Local Open Scope Z_scope.

(** ** Addresses, status codes *)

(** Objects are named by their address. *)
Abbreviation addr := positive (only parsing).

(** [enum class FuturePollStatus]. The header converts between the enum
    and the [uint32_t] that crosses the boundary with [static_cast], so
    a status is held as its integer code. *)
Module FuturePollStatus.
Definition Pending : Z := 0.
Definition Complete : Z := 1.
Definition Error : Z := 2.
(* Only used for streams, not futures. *)
Definition Running : Z := 3.
End FuturePollStatus.

(** [enum class FutureWakeStatus]. *)
Module FutureWakeStatus.
Definition Pending : Z := 0.
Definition Complete : Z := 1.
Definition Error : Z := 2.
Definition Dead : Z := 3.
End FutureWakeStatus.

(** [enum class RustSendResult]: the return value of [sender_send]. *)
Module RustSendResult.
(* There's no room to send a value. This task needs to go to sleep. *)
Definition Wait : Z := 0.
(* The value was successfully sent. *)
Definition Sent : Z := 1.
(* The value was successfully sent, and the channel is closed. *)
Definition Finished : Z := 2.
End RustSendResult.

Definition wake_status_is_done (status : Z) : bool :=
  (status =? FutureWakeStatus.Complete) || (status =? FutureWakeStatus.Error).

(** ** C strings and [rust::async::Error] *)

(** A [const char*] is modelled by the characters of the array it points
    to, terminator included. *)
Definition NUL : ascii := Ascii.zero.

Definition is_NUL (c : ascii) : bool := bool_decide (c = NUL).

(** [rust::String::c_str]: the bytes of the string followed by a
    terminator. A [rust::String] has an explicit length; its bytes may
    include NUL. *)
Definition c_str (s : string) : string := String.append s (String NUL EmptyString).

(** [std::strlen]: the number of characters before the first NUL. *)
Fixpoint strlen (message : string) : nat :=
  match message with
  | EmptyString => O
  | String c rest => if is_NUL c then O else S (strlen rest)
  end.

Module Error.
(** [class Error final : public std::exception]. *)
Record t := { m_message : string }.

(** [copy_from]: [len = strlen(message) + 1]; [new char[len]];
    [std::copy(&message[0], &message[len], m_message)]. *)
Definition copy_from (message : string) : t :=
  let len := (strlen message + 1)%nat in
  {| m_message := String.substring 0 len message |}.

(** [explicit Error(const char* message)]. *)
Definition new (message : string) : t := copy_from message.

Definition what (e : t) : string := m_message e.
End Error.

(** The text a [const char*] denotes: the characters before the
    terminator. *)
Definition c_string_text (p : string) : string := String.substring 0 (strlen p) p.

(** What consumer code can throw. *)
Inductive Exception :=
| ExnError (e : Error.t)        (* rust::async::Error *)
| ExnStd (what : string)        (* any other class derived from std::exception *)
| ExnForeign (payload : Z).     (* an object that is not a std::exception, as in [throw 42] *)

(** The [std::exception] view of a thrown object, when it has one: what
    [catch (const std::exception& e)] binds, reduced to [e.what()]. *)
Definition std_exception_what (e : Exception) : option string :=
  match e with
  | ExnError e => Some (Error.what e)
  | ExnStd what => Some what
  | ExnForeign _ => None
  end.

(** ** Results, continuations, wake functions *)

Module RustFutureResult.
(** [union RustFutureResult<Result>]: the active member is decided by
    the status code that accompanies it, never by the union. *)
Inductive t (T : Type) :=
| uninit                      (* constructed by [RustFutureResult() {}] *)
| m_result (v : T)
| m_exception (s : string).
Arguments uninit {T}.
Arguments m_result {T} v.
Arguments m_exception {T} s.
End RustFutureResult.

(** The [const void* value] argument of [sender_send]. *)
Inductive SendValue (T : Type) :=
| SendNull                                   (* nullptr *)
| SendResult (r : RustFutureResult.t T)      (* the address of a RustFutureResult *)
| SendMessage (what : string).               (* a const char* *)
Arguments SendNull {T}.
Arguments SendResult {T} r.
Arguments SendMessage {T} what.

(** [class Continuation] has one implementation in the header, which
    wraps a coroutine handle. *)
Inductive Continuation :=
| CoroutineHandleContinuation (m_next : addr).

(** [SuspendedCoroutine::WakeFn]. The header builds two closures of this
    type, one in each [await_suspend]; a wake function is one of them
    with what it captured. *)
Inductive WakeFn :=
| WakeReceiver (weak_receiver : addr)   (* RustAwaiter::await_suspend *)
| WakeStream (awaiter : addr).          (* RustStreamAwaiter::await_suspend, captures [this] *)

(** [uintptr_t] arithmetic wraps around; the counter is 64 bits wide. *)
Definition UINTPTR_MODULUS : Z := 2 ^ 64.

Module SuspendedCoroutine.
(** [class SuspendedCoroutine]. *)
Record t := {
  m_refcount : Z;                      (* std::atomic<uintptr_t> *)
  m_next : option Continuation;        (* std::unique_ptr<Continuation> *)
  m_wake_fn : WakeFn;
}.

Definition set_refcount (n : Z) (c : t) : t :=
  {| m_refcount := n; m_next := m_next c; m_wake_fn := m_wake_fn c |}.

Definition set_next (k : option Continuation) (c : t) : t :=
  {| m_refcount := m_refcount c; m_next := k; m_wake_fn := m_wake_fn c |}.
End SuspendedCoroutine.

(** What the trace records: the calls that leave the header, and the
    deletion of a coroutine. *)
Inductive Event (T : Type) :=
| EvFuturePoll (receiver : addr) (waker : option addr) (status : Z)
| EvSenderSend (sender : addr) (status : Z) (value : SendValue T)
               (waker : option addr) (result : Z)
| EvResume (k : Continuation)            (* Continuation::resume *)
| EvDestroy (k : Continuation)           (* Continuation::destroy *)
| EvDelete (coroutine : addr).           (* [delete this] of a SuspendedCoroutine *)
Arguments EvFuturePoll {T}.
Arguments EvSenderSend {T}.
Arguments EvResume {T}.
Arguments EvDestroy {T}.
Arguments EvDelete {T}.

(** ** The stores and the computations over them *)

Section Bridge.

(** [RustFutureTraits<Future>]: the result type, the producer's future
    and sender. *)
Context {T Future Sender : Type}.

(** What a move constructor or move assignment of the result type
    leaves in its source. *)
Variable moved_from : T -> T.

(** [struct RustChannel]. *)
Record RustChannel := {
  future : Future;        (* rust::Box<Future> *)
  sender : Sender;        (* rust::Box<RustSender<Future>> *)
}.

(** [struct Vtable]: three function pointers into the producer runtime.
    A call receives the state of the object it is given and returns the
    state it leaves; [future_poll] writes through [result]. A waker
    reference passed in [waker_data] belongs to the producer from then
    on: what the producer does with it ([add_ref], [release], a wake) is
    a call of its own, made on the coroutine like any other. *)
Record Vtable := {
  channel : addr -> RustChannel;
  sender_send : Sender -> Z -> SendValue T -> option addr -> Sender * Z;
  future_poll : Future -> RustFutureResult.t T -> option addr ->
                Future * RustFutureResult.t T * Z;
}.

(** [FutureVtableProvider<Future>::vtable()]. *)
Variable vtable : Vtable.

(** [class RustFutureReceiver]. [m_lock] is held for the whole of [wake],
    so [wake] is one atomic step on the receiver. *)
Record RustFutureReceiver := {
  m_future : Future;
  m_result : RustFutureResult.t T;
  m_status : Z;
}.

(** [class RustAwaiter]: [m_receiver] is a [std::shared_ptr]. *)
Record RustAwaiter := { m_receiver : addr }.

(** [class RustStreamAwaiter]. [m_sender] is a reference; [m_value] is an
    rvalue reference, held here with the object it refers to. *)
Record RustStreamAwaiter := {
  m_sender : addr;
  m_value : T;
}.

(** [class RustPromiseBase]: the execlet and the sender half of
    [m_channel] (the future half is moved out by [get_return_object]). *)
Record RustPromiseBase := {
  m_execlet : addr;
  m_channel_sender : addr;
}.

(** The objects alive at one moment and the calls made so far. A
    receiver is in [receivers] while a [shared_ptr] owns it: a
    [weak_ptr] to it locks exactly then. *)
Record World := {
  receivers : gmap addr RustFutureReceiver;
  senders : gmap addr Sender;
  coroutines : gmap addr SuspendedCoroutine.t;
  stream_awaiters : gmap addr RustStreamAwaiter;
  trace : list (Event T);
}.

Definition set_receivers (f : gmap addr RustFutureReceiver -> gmap addr RustFutureReceiver)
    (w : World) : World :=
  {| receivers := f (receivers w); senders := senders w; coroutines := coroutines w;
     stream_awaiters := stream_awaiters w; trace := trace w |}.

Definition set_senders (f : gmap addr Sender -> gmap addr Sender) (w : World) : World :=
  {| receivers := receivers w; senders := f (senders w); coroutines := coroutines w;
     stream_awaiters := stream_awaiters w; trace := trace w |}.

Definition set_coroutines (f : gmap addr SuspendedCoroutine.t -> gmap addr SuspendedCoroutine.t)
    (w : World) : World :=
  {| receivers := receivers w; senders := senders w; coroutines := f (coroutines w);
     stream_awaiters := stream_awaiters w; trace := trace w |}.

Definition set_stream_awaiters (f : gmap addr RustStreamAwaiter -> gmap addr RustStreamAwaiter)
    (w : World) : World :=
  {| receivers := receivers w; senders := senders w; coroutines := coroutines w;
     stream_awaiters := f (stream_awaiters w); trace := trace w |}.

Definition set_trace (f : list (Event T) -> list (Event T)) (w : World) : World :=
  {| receivers := receivers w; senders := senders w; coroutines := coroutines w;
     stream_awaiters := stream_awaiters w; trace := f (trace w) |}.

(** How a call ends. *)
Inductive Outcome (A : Type) :=
| Ok (a : A) (w : World)             (* returns [a] *)
| Thrown (e : Exception) (w : World) (* a C++ exception leaves the call *)
| Fatal (w : World)                  (* the process is terminated *)
| Undefined.                         (* undefined behaviour *)
Arguments Ok {A} a w.
Arguments Thrown {A} e w.
Arguments Fatal {A} w.
Arguments Undefined {A}.

Definition M (A : Type) : Type := World -> Outcome A.

Definition ret {A} (a : A) : M A := fun w => Ok a w.

Definition bind {A B} (m : M A) (k : A -> M B) : M B :=
  fun w =>
    match m w with
    | Ok a w' => k a w'
    | Thrown e w' => Thrown e w'
    | Fatal w' => Fatal w'
    | Undefined => Undefined
    end.

Notation "'do' x <- m ; k" := (bind m (fun x => k))
  (at level 10, x name, m at level 100, k at level 200, only parsing).
Notation "'do_' m ; k" := (bind m (fun _ => k))
  (at level 10, m at level 100, k at level 200, only parsing).

Definition throw {A} (e : Exception) : M A := fun w => Thrown e w.

(** [std::terminate]. *)
Definition terminate {A} : M A := fun w => Fatal w.

Definition undefined {A} : M A := fun _ => Undefined.

(** A [noexcept] function: an exception that would leave it calls
    [std::terminate]. *)
Definition noexcept {A} (m : M A) : M A :=
  fun w =>
    match m w with
    | Thrown _ w' => Fatal w'
    | o => o
    end.

(** Modelled from the spec: [cxxasync_assert] is declared in the header
    and defined elsewhere; the specification calls a failed
    [CXXASYNC_ASSERT] a fatal assertion that terminates the process. *)
Definition cxxasync_assert (cond : bool) : M unit :=
  fun w => if cond then Ok tt w else Fatal w.

Definition emit (ev : Event T) : M unit :=
  fun w => Ok tt (set_trace (fun tr => tr ++ [ev]) w).

(** The world an outcome leaves, when the process still has one. *)
Definition outcome_world {A} (o : Outcome A) : option World :=
  match o with
  | Ok _ w | Thrown _ w | Fatal w => Some w
  | Undefined => None
  end.

(** *** SuspendedCoroutine *)

Definition load_coroutine (p : addr) : M SuspendedCoroutine.t :=
  fun w =>
    match coroutines w !! p with
    | Some c => Ok c w
    | None => Undefined          (* the object was deleted *)
    end.

Definition store_coroutine (p : addr) (c : SuspendedCoroutine.t) : M unit :=
  fun w => Ok tt (set_coroutines (insert p c) w).

(** [m_refcount.fetch_add(n)] on a [uintptr_t]. *)
Definition fetch_add (p : addr) (n : Z) : M Z :=
  do c <- load_coroutine p;
  do_ store_coroutine p
       (SuspendedCoroutine.set_refcount
          ((SuspendedCoroutine.m_refcount c + n) mod UINTPTR_MODULUS) c);
  ret (SuspendedCoroutine.m_refcount c).

(** [m_refcount.fetch_sub(n)]. *)
Definition fetch_sub (p : addr) (n : Z) : M Z :=
  do c <- load_coroutine p;
  do_ store_coroutine p
       (SuspendedCoroutine.set_refcount
          ((SuspendedCoroutine.m_refcount c - n) mod UINTPTR_MODULUS) c);
  ret (SuspendedCoroutine.m_refcount c).

(** [new SuspendedCoroutine(next, wake_fn)]: [m_refcount(1)]. *)
Definition SuspendedCoroutine_new (next : Continuation) (wake_fn : WakeFn) : M addr :=
  fun w =>
    let p := fresh (dom (coroutines w)) in
    Ok p (set_coroutines
            (insert p {| SuspendedCoroutine.m_refcount := 1;
                         SuspendedCoroutine.m_next := Some next;
                         SuspendedCoroutine.m_wake_fn := wake_fn |}) w).

(** [m_next.reset()]: the continuation object is freed; neither of its
    methods runs. *)
Definition forget_coroutine_handle (p : addr) : M unit :=
  do c <- load_coroutine p;
  store_coroutine p (SuspendedCoroutine.set_next None c).

Definition Continuation_resume (k : Continuation) : M unit := emit (EvResume k).

Definition Continuation_destroy (k : Continuation) : M unit := emit (EvDestroy k).

(** The body of [~SuspendedCoroutine]. *)
Definition SuspendedCoroutine_destructor (p : addr) : M unit :=
  do c <- load_coroutine p;
  match SuspendedCoroutine.m_next c with
  | Some k =>
      do_ Continuation_destroy k;
      store_coroutine p (SuspendedCoroutine.set_next None c)
  | None => ret tt
  end.

(** [delete this]: the destructor, then the storage is given back. *)
Definition delete_this (p : addr) : M unit :=
  do_ SuspendedCoroutine_destructor p;
  do_ emit (EvDelete p);
  fun w => Ok tt (set_coroutines (delete p) w).

Definition SuspendedCoroutine_add_ref (p : addr) : M addr :=
  do _ <- fetch_add p 1;
  ret p.

Definition SuspendedCoroutine_release (p : addr) : M unit :=
  do last_refcount <- fetch_sub p 1;
  do_ cxxasync_assert (0 <? last_refcount);
  if last_refcount =? 1 then delete_this p else ret tt.

(** [resume]: the assertion, [next = std::move(m_next)], the (now idle)
    [forget_coroutine_handle], then [next->resume()]. *)
Definition SuspendedCoroutine_resume (p : addr) : M unit :=
  do c <- load_coroutine p;
  do_ cxxasync_assert (bool_decide (is_Some (SuspendedCoroutine.m_next c)));
  let next := SuspendedCoroutine.m_next c in
  do_ store_coroutine p (SuspendedCoroutine.set_next None c);
  do_ forget_coroutine_handle p;
  match next with
  | Some k => Continuation_resume k
  | None => undefined
  end.

(** *** Calls through the binding table *)

(** [vtable->sender_send(sender, status, value, waker_data)] on the
    sender at address [s]. *)
Definition call_sender_send (s : addr) (status : Z) (value : SendValue T)
    (waker_data : option addr) : M Z :=
  fun w =>
    match senders w !! s with
    | Some sd =>
        let '(sd', result) := sender_send vtable sd status value waker_data in
        Ok result
           (set_trace (fun tr => tr ++ [EvSenderSend s status value waker_data result])
              (set_senders (insert s sd') w))
    | None => Undefined
    end.

(** *** RustFutureReceiver *)

(** [explicit RustFutureReceiver(rust::Box<Future>&& future)]. *)
Definition RustFutureReceiver_new (future : Future) : RustFutureReceiver :=
  {| m_future := future;
     m_result := RustFutureResult.uninit;
     m_status := FuturePollStatus.Pending |}.

Definition load_receiver (r : addr) : M RustFutureReceiver :=
  fun w =>
    match receivers w !! r with
    | Some rc => Ok rc w
    | None => Undefined
    end.

(** [RustFutureReceiver::wake]. Consumes the [coroutine] reference. *)
Definition RustFutureReceiver_wake (r : addr) (coroutine : addr) : M Z :=
  do rc <- load_receiver r;
  (* Have we already polled this future to completion? If so, don't poll again. *)
  if negb (m_status rc =? FuturePollStatus.Pending) then
    do_ SuspendedCoroutine_release coroutine;
    ret FutureWakeStatus.Dead
  else
    let '(future', result', status) :=
      future_poll vtable (m_future rc) (m_result rc) (Some coroutine) in
    do_ (fun w => Ok tt (set_receivers
           (insert r {| m_future := future'; m_result := result'; m_status := status |}) w));
    do_ emit (EvFuturePoll r (Some coroutine) status);
    ret status.

(** [RustFutureReceiver::get_result]. The result is an rvalue reference
    to the stored value: the call itself leaves the receiver as it is. *)
Definition RustFutureReceiver_get_result (r : addr) : M T :=
  do rc <- load_receiver r;
  if m_status rc =? FuturePollStatus.Complete then
    match m_result rc with
    | RustFutureResult.m_result v => ret v
    | _ => undefined
    end
  else if m_status rc =? FuturePollStatus.Error then
    match m_result rc with
    | RustFutureResult.m_exception s => throw (ExnError (Error.new (c_str s)))
    | _ => undefined
    end
  else if (m_status rc =? FuturePollStatus.Pending)
          || (m_status rc =? FuturePollStatus.Running) then
    (* TODO(pcwalton): Handle C++ consuming Rust streams. *)
    do_ cxxasync_assert false;
    terminate
  else undefined.

(** *** RustStreamAwaiter *)

Definition load_stream_awaiter (a : addr) : M RustStreamAwaiter :=
  fun w =>
    match stream_awaiters w !! a with
    | Some aw => Ok aw w
    | None => Undefined
    end.

Definition store_value (a : addr) (v : T) : M unit :=
  fun w =>
    match stream_awaiters w !! a with
    | Some aw =>
        Ok tt (set_stream_awaiters (insert a {| m_sender := m_sender aw; m_value := v |}) w)
    | None => Undefined
    end.

(** [RustStreamAwaiter::poll_next]. *)
Definition RustStreamAwaiter_poll_next (a : addr) (coroutine : addr) : M Z :=
  noexcept (
    do aw <- load_stream_awaiter a;
    (* new (&result.m_result) YieldResult(std::move(m_value)) *)
    let result := RustFutureResult.m_result (m_value aw) in
    do_ store_value a (moved_from (m_value aw));
    do waker <- SuspendedCoroutine_add_ref coroutine;
    do send_result <-
      call_sender_send (m_sender aw) FuturePollStatus.Running (SendResult result) (Some waker);
    if send_result =? RustSendResult.Sent then ret FutureWakeStatus.Complete
    else if send_result =? RustSendResult.Wait then
      (* m_value = std::move(result.m_result) *)
      do_ store_value a (m_value aw);
      ret FutureWakeStatus.Pending
    else if send_result =? RustSendResult.Finished then
      (* Should never get here. *)
      do_ cxxasync_assert false;
      terminate
    else undefined).

(** *** Waking *)

(** The two closures stored in [m_wake_fn]. *)
Definition call_wake_fn (f : WakeFn) (coroutine : addr) : M Z :=
  match f with
  | WakeReceiver weak_receiver =>
      fun w =>
        (* weak_receiver.lock() *)
        match receivers w !! weak_receiver with
        | None =>
            (* This rarely ever happens in practice, but I think it can. *)
            Ok FutureWakeStatus.Dead w
        | Some _ =>
            (do p <- SuspendedCoroutine_add_ref coroutine;
             RustFutureReceiver_wake weak_receiver p) w
        end
  | WakeStream awaiter => RustStreamAwaiter_poll_next awaiter coroutine
  end.

(** [SuspendedCoroutine::wake]. Does not consume the [this] reference. *)
Definition SuspendedCoroutine_wake (p : addr) : M Z :=
  do c <- load_coroutine p;
  call_wake_fn (SuspendedCoroutine.m_wake_fn c) p.

(** [SuspendedCoroutine::initial_suspend]. Consumes the [this]
    reference. *)
Definition SuspendedCoroutine_initial_suspend (p : addr) : M bool :=
  do status <- SuspendedCoroutine_wake p;
  let done := wake_status_is_done status in
  do_ (if done then forget_coroutine_handle p else ret tt);
  do_ SuspendedCoroutine_release p;
  ret (negb done).

(** [RustAwaiter::await_suspend]. *)
Definition RustAwaiter_await_suspend (aw : RustAwaiter) (next : addr) : M bool :=
  do coroutine <-
    SuspendedCoroutine_new (CoroutineHandleContinuation next) (WakeReceiver (m_receiver aw));
  SuspendedCoroutine_initial_suspend coroutine.

(** [RustStreamAwaiter::await_suspend], for the awaiter at address [a]. *)
Definition RustStreamAwaiter_await_suspend (a : addr) (next : addr) : M bool :=
  do coroutine <- SuspendedCoroutine_new (CoroutineHandleContinuation next) (WakeStream a);
  SuspendedCoroutine_initial_suspend coroutine.

(** *** The promise *)

(** [behavior::TryCatch<T, C>::trycatch]: the customization point. *)
Class TryCatch := trycatch : M unit -> (string -> M unit) -> M unit.

(** The definition the header supplies:
    [try { func(); } catch (const std::exception& e) { fail(e.what()); }]
    inside a [noexcept] function. *)
Definition default_trycatch : TryCatch :=
  fun func fail =>
    noexcept (fun w =>
      match func w with
      | Thrown e w' =>
          match std_exception_what e with
          | Some what => fail what w'
          | None => Thrown e w'
          end
      | o => o
      end).

(** [RustPromiseBase::unhandled_exception], entered while [current] is
    the exception being handled. *)
Definition RustPromiseBase_unhandled_exception `{TryCatch}
    (promise : RustPromiseBase) (current : Exception) : M unit :=
  noexcept (
    trycatch
      (* std::rethrow_exception(std::current_exception()) *)
      (throw current)
      (fun what =>
         do _ <- call_sender_send (m_channel_sender promise)
                   FuturePollStatus.Error (SendMessage what) None;
         ret tt)).

(** [RustPromise<Future, YieldResultIsVoid, false>::return_value]. *)
Definition RustPromise_return_value (promise : RustPromiseBase) (value : T) : M unit :=
  let result := RustFutureResult.m_result value in
  do _ <- call_sender_send (m_channel_sender promise)
            FuturePollStatus.Complete (SendResult result) None;
  ret tt.

(** [RustPromise<Future, YieldResultIsVoid, true>::return_void]. *)
Definition RustPromise_return_void (promise : RustPromiseBase) : M unit :=
  do _ <- call_sender_send (m_channel_sender promise)
            FuturePollStatus.Complete SendNull None;
  ret tt.

(** *** Sequences of calls and what the trace shows *)

(** What the destructor does with [m_next]. *)
Definition destroy_events (next : option Continuation) : list (Event T) :=
  match next with
  | Some k => [EvDestroy k]
  | None => []
  end.

(** Calls on the reference count of one coroutine, in the order in which
    their atomic read-modify-write operations take effect. *)
Inductive RefOp := AddRef | Release.

Definition run_ref_op (p : addr) (op : RefOp) : M unit :=
  match op with
  | AddRef => do _ <- SuspendedCoroutine_add_ref p; ret tt
  | Release => SuspendedCoroutine_release p
  end.

Fixpoint run_ref_ops (p : addr) (ops : list RefOp) : M unit :=
  match ops with
  | [] => ret tt
  | op :: rest => do_ run_ref_op p op; run_ref_ops p rest
  end.

(** The references outstanding after [ops], [held] being outstanding
    before. *)
Fixpoint held_after (held : Z) (ops : list RefOp) : Z :=
  match ops with
  | [] => held
  | AddRef :: rest => held_after (held + 1) rest
  | Release :: rest => held_after (held - 1) rest
  end.

(** [ops] is balanced from [held] outstanding references: every call is
    made through a reference that is still outstanding, and every
    reference is given back at the end. *)
Fixpoint balanced (held : Z) (ops : list RefOp) : bool :=
  match ops with
  | [] => held =? 0
  | AddRef :: rest => (0 <? held) && balanced (held + 1) rest
  | Release :: rest => (0 <? held) && balanced (held - 1) rest
  end.

(** Calls that use the continuation of one coroutine. *)
Inductive ContinuationUse := UseResume | UseDestructor.

Definition run_use (p : addr) (u : ContinuationUse) : M unit :=
  match u with
  | UseResume => SuspendedCoroutine_resume p
  | UseDestructor => SuspendedCoroutine_destructor p
  end.

Fixpoint run_uses (p : addr) (us : list ContinuationUse) : M unit :=
  match us with
  | [] => ret tt
  | u :: rest => do_ run_use p u; run_uses p rest
  end.

Definition is_continuation_event (ev : Event T) : bool :=
  match ev with
  | EvResume _ | EvDestroy _ => true
  | _ => false
  end.

(** How many times a continuation was resumed or destroyed. *)
Definition continuation_transitions (evs : list (Event T)) : nat :=
  length (List.filter is_continuation_event evs).

Definition is_binding_call (ev : Event T) : bool :=
  match ev with
  | EvFuturePoll _ _ _ | EvSenderSend _ _ _ _ _ => true
  | _ => false
  end.

(** How many calls went through the binding table. *)
Definition binding_calls (evs : list (Event T)) : nat :=
  length (List.filter is_binding_call evs).

(** Successive [wake] calls on one receiver, each with the coroutine
    reference it is given. *)
Fixpoint wake_all (r : addr) (wakers : list addr) : M (list Z) :=
  match wakers with
  | [] => ret []
  | c :: rest =>
      do status <- RustFutureReceiver_wake r c;
      do statuses <- wake_all r rest;
      ret (status :: statuses)
  end.

Definition poll_status_of (r : addr) (ev : Event T) : option Z :=
  match ev with
  | EvFuturePoll r' _ status => if bool_decide (r' = r) then Some status else None
  | _ => None
  end.

(** The statuses that [future_poll] returned for receiver [r], oldest
    first. *)
Definition poll_statuses (r : addr) (evs : list (Event T)) : list Z :=
  omap (poll_status_of r) evs.

(** Every poll but the last returned [Pending]. *)
Fixpoint no_poll_after_done (statuses : list Z) : bool :=
  match statuses with
  | [] => true
  | status :: rest =>
      if status =? FuturePollStatus.Pending then no_poll_after_done rest
      else bool_decide (rest = [])
  end.

(** The polls that returned [Complete] or [Error]. *)
Definition terminal_polls (statuses : list Z) : nat :=
  length (List.filter wake_status_is_done statuses).

(** *** The awaiter of a future *)

(** [explicit RustAwaiter(rust::Box<Future>&& future)], which is all that
    [operator co_await(Box<Future>&&)] does: the receiver is made by
    [std::make_shared] and starts [Pending]. *)
Definition RustAwaiter_new (future : Future) : M RustAwaiter :=
  fun w =>
    let r := fresh (dom (receivers w)) in
    Ok {| m_receiver := r |} (set_receivers (insert r (RustFutureReceiver_new future)) w).

(** [RustAwaiter::await_ready]. We could poll here, but let's not. *)
Definition RustAwaiter_await_ready (aw : RustAwaiter) : M bool := ret false.

(** [RustAwaiter::await_resume]. *)
Definition RustAwaiter_await_resume (aw : RustAwaiter) : M T :=
  RustFutureReceiver_get_result (m_receiver aw).

(** *** The awaiter of a yield *)

(** [RustStreamAwaiter(RustSender<Future>& sender, YieldResult&& value)]:
    both members are references, nothing is moved yet. The awaiter is a
    temporary of the yielding coroutine. *)
Definition RustStreamAwaiter_new (sender : addr) (value : T) : M addr :=
  fun w =>
    let a := fresh (dom (stream_awaiters w)) in
    Ok a (set_stream_awaiters (insert a {| m_sender := sender; m_value := value |}) w).

(** [RustStreamAwaiter::await_ready]. *)
Definition RustStreamAwaiter_await_ready (a : addr) : M bool := ret false.

(** [RustStreamAwaiter::await_resume]. *)
Definition RustStreamAwaiter_await_resume (a : addr) : M unit := ret tt.

(** The end of the lifetime of the temporary. *)
Definition RustStreamAwaiter_destroy (a : addr) : M unit :=
  fun w => Ok tt (set_stream_awaiters (delete a) w).

(** [RustStreamPromiseBase<Future, false>::yield_value]. *)
Definition RustStreamPromiseBase_yield_value (promise : RustPromiseBase) (value : T) : M addr :=
  noexcept (RustStreamAwaiter_new (m_channel_sender promise) value).

(** A coroutine body that yields [values] in turn and then returns:
    each [co_yield] is [yield_value], [await_ready], [await_suspend] and,
    unless the coroutine suspends, [await_resume] and the end of the
    awaiter. The result tells whether the body ran to its [co_return]. *)
Fixpoint yield_all (promise : RustPromiseBase) (next : addr) (values : list T) : M bool :=
  match values with
  | [] => do_ RustPromise_return_void promise; ret true
  | value :: rest =>
      do a <- RustStreamPromiseBase_yield_value promise value;
      do ready <- RustStreamAwaiter_await_ready a;
      do suspended <-
        (if ready then ret false else RustStreamAwaiter_await_suspend a next);
      if suspended then ret false
      else
        do_ RustStreamAwaiter_await_resume a;
        do_ RustStreamAwaiter_destroy a;
        yield_all promise next rest
  end.

(** The values sent tagged [Running], oldest first. *)
Definition yielded_value (ev : Event T) : option T :=
  match ev with
  | EvSenderSend _ status (SendResult (RustFutureResult.m_result v)) _ _ =>
      if status =? FuturePollStatus.Running then Some v else None
  | _ => None
  end.

Definition yielded_values (evs : list (Event T)) : list T := omap yielded_value evs.

End Bridge.

Arguments World : clear implicits.
Arguments Vtable : clear implicits.
Arguments RustFutureReceiver : clear implicits.
Arguments RustStreamAwaiter : clear implicits.
Arguments M : clear implicits.
Arguments Outcome : clear implicits.
Arguments TryCatch : clear implicits.
Arguments Ok {T Future Sender A} a w.
Arguments Thrown {T Future Sender A} e w.
Arguments Fatal {T Future Sender A} w.
Arguments Undefined {T Future Sender A}.

(** * The storage of [rust::async::Error]

    [class Error] owns a character array through a raw pointer. Its
    special member functions are modelled on a free store that holds the
    [Error] objects (each one its [char* m_message], null or the address
    of an array) and the arrays that [new char[len]] returned. A step
    that has undefined behaviour (reading through a null or dangling
    pointer, reading past an array that has no terminator, freeing an
    array twice) has no result. *)

Module ErrorStore.

Record t := {
  objects : gmap addr (option addr);    (* the Error objects: m_message *)
  arrays : gmap addr string;            (* the arrays from new char[] *)
}.

(** [std::strlen] stays inside an array only when the array has a
    terminator. *)
Definition terminated (chars : string) : bool :=
  bool_decide (strlen chars < String.length chars)%nat.

(** The body of [copy_from] once the characters of [message] are known:
    [new char[len]] and [std::copy]. *)
Definition allocate_copy (self : addr) (chars : string) (m : t) : option t :=
  if terminated chars then
    let array := fresh (dom (arrays m)) in
    Some {| objects := <[self := Some array]> (objects m);
            arrays := <[array := Error.m_message (Error.copy_from chars)]> (arrays m) |}
  else None.

(** [copy_from(message)] on the object at [self], [message] being the
    [m_message] of an [Error]. *)
Definition copy_from (self : addr) (message : option addr) (m : t) : option t :=
  match message with
  | None => None
  | Some from =>
      match arrays m !! from with
      | None => None
      | Some chars => allocate_copy self chars m
      end
  end.

(** [destroy()]: [if (m_message != nullptr) delete[] m_message;]. The
    pointer keeps its value. *)
Definition destroy (self : addr) (m : t) : option t :=
  match objects m !! self with
  | None => None
  | Some None => Some m
  | Some (Some array) =>
      match arrays m !! array with
      | None => None
      | Some _ => Some {| objects := objects m; arrays := delete array (arrays m) |}
      end
  end.

(** [explicit Error(const char* message)]. The argument points outside
    this store (in the header, into a [rust::String]); it is given by the
    characters of the array it points to. *)
Definition construct (self : addr) (message : string) (m : t) : option t :=
  allocate_copy self message m.

(** [Error(const Error& other)]. *)
Definition copy_construct (self other : addr) (m : t) : option t :=
  match objects m !! other with
  | None => None
  | Some message => copy_from self message m
  end.

(** [Error(Error&& other) noexcept]. *)
Definition move_construct (self other : addr) (m : t) : option t :=
  match objects m !! other with
  | None => None
  | Some message =>
      Some {| objects := <[other := None]> (<[self := message]> (objects m));
              arrays := arrays m |}
  end.

(** [~Error()]: [destroy()], and the object is gone. *)
Definition destructor (self : addr) (m : t) : option t :=
  match destroy self m with
  | None => None
  | Some m' => Some {| objects := delete self (objects m'); arrays := arrays m' |}
  end.

(** [Error& operator=(const Error& other)]: [destroy()], then
    [copy_from(other.m_message)]. *)
Definition copy_assign (self other : addr) (m : t) : option t :=
  match destroy self m with
  | None => None
  | Some m' =>
      match objects m' !! other with
      | None => None
      | Some message => copy_from self message m'
      end
  end.

(** [Error& operator=(Error&& other) noexcept]:
    [m_message = other.m_message; other.m_message = nullptr;]. *)
Definition move_assign (self other : addr) (m : t) : option t :=
  match objects m !! self, objects m !! other with
  | Some _, Some message =>
      Some {| objects := <[other := None]> (<[self := message]> (objects m));
              arrays := arrays m |}
  | _, _ => None
  end.

(** [what()]: the pointer, and the text it denotes when it points to a
    terminated array. *)
Definition what (self : addr) (m : t) : option (option addr) := objects m !! self.

Definition what_text (self : addr) (m : t) : option string :=
  match objects m !! self with
  | Some (Some array) =>
      match arrays m !! array with
      | Some chars => if terminated chars then Some (c_string_text chars) else None
      | None => None
      end
  | _ => None
  end.

(** The class keeps its arrays in order when every non-null [m_message]
    points to an allocated array that has its terminator, no two objects
    point to the same array, and every allocated array belongs to some
    object. *)
Definition valid (m : t) : Prop :=
  forall self array, objects m !! self = Some (Some array) ->
    exists chars, arrays m !! array = Some chars /\ terminated chars = true.

Definition unshared (m : t) : Prop :=
  forall self self' array,
    objects m !! self = Some (Some array) -> objects m !! self' = Some (Some array) ->
    self = self'.

Definition no_leak (m : t) : Prop :=
  forall array, is_Some (arrays m !! array) ->
    exists self, objects m !! self = Some (Some array).

Definition owned (m : t) : Prop := valid m /\ unshared m /\ no_leak m.

(** An array that is still allocated and that no object points to. *)
Definition leaked (m : t) (array : addr) : bool :=
  bool_decide (is_Some (arrays m !! array)
               /\ map_Forall (fun _ message => message <> Some array) (objects m)).

End ErrorStore.

(** * A scripted producer

    A producer runtime whose answers are written down in advance, to
    run the bridge on concrete inputs: a future is the list of what its
    successive polls report, a sender the list of what successive sends
    report. *)

Definition ScriptedFuture : Type := list (RustFutureResult.t Z * Z).

Definition ScriptedSender : Type := list Z.

Definition scripted_vtable : Vtable Z ScriptedFuture ScriptedSender :=
  {| channel := fun _ => {| future := []; sender := [] |};
     sender_send := fun sd _ _ _ =>
       match sd with
       | [] => ([], RustSendResult.Sent)
       | result :: rest => (rest, result)
       end;
     future_poll := fun f result _ =>
       match f with
       | [] => ([], result, FuturePollStatus.Pending)
       | (result', status) :: rest => (rest, result', status)
       end |}.

(** The scripted result type is treated as move-only: zero stands for
    what a move leaves behind. *)
Definition scripted_moved_from (v : Z) : Z := 0.

Definition scripted_world
    (rs : list (addr * RustFutureReceiver Z ScriptedFuture))
    (ss : list (addr * ScriptedSender))
    (cs : list (addr * SuspendedCoroutine.t))
    (aws : list (addr * RustStreamAwaiter Z)) : World Z ScriptedFuture ScriptedSender :=
  {| receivers := list_to_map rs; senders := list_to_map ss;
     coroutines := list_to_map cs; stream_awaiters := list_to_map aws; trace := [] |}.

(** A coroutine at address 1 suspended on the receiver at address 2,
    with [n] references to it. *)
Definition waiting_coroutine (n : Z) : SuspendedCoroutine.t :=
  {| SuspendedCoroutine.m_refcount := n;
     SuspendedCoroutine.m_next := Some (CoroutineHandleContinuation 9);
     SuspendedCoroutine.m_wake_fn := WakeReceiver 2 |}.

(** A receiver whose future reports [Pending] once and then completes
    with 42. *)
Definition pending_receiver : RustFutureReceiver Z ScriptedFuture :=
  RustFutureReceiver_new
    [(RustFutureResult.uninit, FuturePollStatus.Pending);
     (RustFutureResult.m_result 42, FuturePollStatus.Complete)].

Definition failed_receiver (message : string) : RustFutureReceiver Z ScriptedFuture :=
  {| m_future := []; m_result := RustFutureResult.m_exception message;
     m_status := FuturePollStatus.Error |}.

(** A message with a NUL character inside: the three bytes a, NUL, b. *)
Definition message_with_NUL : string := String "a" (String NUL (String "b" EmptyString)).

(** A stream awaiter at address 3 about to yield 7 into the sender at
    address 4. *)
Definition yielding_awaiter : RustStreamAwaiter Z := {| m_sender := 4; m_value := 7 |}.

Definition scripted_promise : RustPromiseBase := {| m_execlet := 8; m_channel_sender := 4 |}.

Definition refcount_world (n : Z) : World Z ScriptedFuture ScriptedSender :=
  scripted_world [] [] [(1%positive, waiting_coroutine n)] [].

Definition receiver_world : World Z ScriptedFuture ScriptedSender :=
  scripted_world [(2%positive, pending_receiver)] [] [(1%positive, waiting_coroutine 5)] [].

Definition failed_world (message : string) : World Z ScriptedFuture ScriptedSender :=
  scripted_world [(2%positive, failed_receiver message)] [] [] [].

Definition stream_world (script : ScriptedSender) : World Z ScriptedFuture ScriptedSender :=
  scripted_world [] [(4%positive, script)]
    [(1%positive, {| SuspendedCoroutine.m_refcount := 1;
                     SuspendedCoroutine.m_next := Some (CoroutineHandleContinuation 9);
                     SuspendedCoroutine.m_wake_fn := WakeStream 3 |})]
    [(3%positive, yielding_awaiter)].

(** Two [Error] objects, at addresses 1 and 2, holding the messages
    [first] and [second] in the arrays at addresses 11 and 12. *)
Definition two_errors (first second : string) : ErrorStore.t :=
  {| ErrorStore.objects := list_to_map [(1%positive, Some 11%positive);
                                         (2%positive, Some 12%positive)];
     ErrorStore.arrays := list_to_map [(11%positive, c_str first);
                                        (12%positive, c_str second)] |}.

(** A producer whose channel always has room. *)
Definition accepting_vtable : Vtable Z ScriptedFuture ScriptedSender :=
  {| channel := fun _ => {| future := []; sender := [] |};
     sender_send := fun sd _ _ _ => (sd, RustSendResult.Sent);
     future_poll := future_poll scripted_vtable |}.

(** A receiver at address 2 whose future answers as [script] says, and
    nothing else. *)
Definition awaiting_world (script : ScriptedFuture) : World Z ScriptedFuture ScriptedSender :=
  scripted_world [(2%positive, RustFutureReceiver_new script)] [] [] [].

(** * Properties *)

(** ** The reference count of a suspended coroutine *)

Section RefcountProperties.

Context {T Future Sender : Type}.

Implicit Types (w : World T Future Sender) (p : addr) (c : SuspendedCoroutine.t).

Ltac run_call :=
  unfold SuspendedCoroutine_release, SuspendedCoroutine_add_ref, delete_this,
    SuspendedCoroutine_destructor, SuspendedCoroutine_resume, forget_coroutine_handle,
    Continuation_destroy, Continuation_resume, fetch_sub, fetch_add, cxxasync_assert,
    emit, store_coroutine, load_coroutine, bind, ret, set_coroutines, set_trace;
  simpl.

Lemma release_nonpositive w p c :
  coroutines w !! p = Some c ->
  SuspendedCoroutine.m_refcount c <= 0 ->
  SuspendedCoroutine_release p w =
    Fatal {| receivers := receivers w; senders := senders w;
             coroutines :=
               <[p := SuspendedCoroutine.set_refcount
                        ((SuspendedCoroutine.m_refcount c - 1) mod UINTPTR_MODULUS) c]>
                 (coroutines w);
             stream_awaiters := stream_awaiters w; trace := trace w |}.
Proof.
  intros Hp Hn. run_call. rewrite Hp. simpl.
  destruct (0 <? SuspendedCoroutine.m_refcount c) eqn:E; [apply Z.ltb_lt in E; lia | reflexivity].
Qed.

Lemma release_last w p c :
  coroutines w !! p = Some c ->
  SuspendedCoroutine.m_refcount c = 1 ->
  SuspendedCoroutine_release p w =
    Ok tt {| receivers := receivers w; senders := senders w;
             coroutines := delete p (coroutines w);
             stream_awaiters := stream_awaiters w;
             trace := trace w ++ destroy_events (SuspendedCoroutine.m_next c) ++ [EvDelete p] |}.
Proof.
  intros Hp Hn. run_call. rewrite Hp. simpl. rewrite Hn. simpl.
  rewrite lookup_insert_eq. simpl.
  destruct (SuspendedCoroutine.m_next c) as [k|]; simpl.
  - rewrite insert_insert_eq, delete_insert_eq, <- app_assoc. reflexivity.
  - rewrite delete_insert_eq. reflexivity.
Qed.

Lemma release_shared w p c :
  coroutines w !! p = Some c ->
  1 < SuspendedCoroutine.m_refcount c ->
  SuspendedCoroutine_release p w =
    Ok tt {| receivers := receivers w; senders := senders w;
             coroutines :=
               <[p := SuspendedCoroutine.set_refcount
                        ((SuspendedCoroutine.m_refcount c - 1) mod UINTPTR_MODULUS) c]>
                 (coroutines w);
             stream_awaiters := stream_awaiters w; trace := trace w |}.
Proof.
  intros Hp Hn. run_call. rewrite Hp. simpl.
  destruct (0 <? SuspendedCoroutine.m_refcount c) eqn:E; [| apply Z.ltb_ge in E; lia].
  destruct (SuspendedCoroutine.m_refcount c =? 1) eqn:E1; [apply Z.eqb_eq in E1; lia |].
  reflexivity.
Qed.

Lemma add_ref_live w p c :
  coroutines w !! p = Some c ->
  SuspendedCoroutine_add_ref p w =
    Ok p {| receivers := receivers w; senders := senders w;
            coroutines :=
              <[p := SuspendedCoroutine.set_refcount
                       ((SuspendedCoroutine.m_refcount c + 1) mod UINTPTR_MODULUS) c]>
                (coroutines w);
            stream_awaiters := stream_awaiters w; trace := trace w |}.
Proof. intros Hp. run_call. rewrite Hp. reflexivity. Qed.

Lemma new_coroutine w (next : Continuation) (wake_fn : WakeFn) :
  let p := fresh (dom (coroutines w)) in
  coroutines w !! p = None
  /\ SuspendedCoroutine_new next wake_fn w =
       Ok p {| receivers := receivers w; senders := senders w;
               coroutines :=
                 <[p := {| SuspendedCoroutine.m_refcount := 1;
                           SuspendedCoroutine.m_next := Some next;
                           SuspendedCoroutine.m_wake_fn := wake_fn |}]> (coroutines w);
               stream_awaiters := stream_awaiters w; trace := trace w |}.
Proof.
  intros p. split; [| reflexivity].
  apply not_elem_of_dom. apply is_fresh.
Qed.

Lemma unbalanced_from_zero (ops : list RefOp) : ops <> [] -> balanced 0 ops = false.
Proof. destruct ops as [|[] rest]; [congruence | reflexivity | reflexivity]. Qed.

Lemma balanced_positive (n : Z) (ops : list RefOp) :
  ops <> [] -> balanced n ops = true -> 0 < n.
Proof.
  destruct ops as [|[] rest]; [congruence | |]; simpl; intros _ H;
    apply andb_true_iff in H as [H _]; apply Z.ltb_lt in H; exact H.
Qed.

Lemma balanced_ends_with_release (ops : list RefOp) :
  forall n, 0 < n -> balanced n ops = true -> exists pre, ops = pre ++ [Release].
Proof.
  induction ops as [|op rest IH]; intros n Hn Hb.
  - simpl in Hb. apply Z.eqb_eq in Hb. lia.
  - destruct op; simpl in Hb; apply andb_true_iff in Hb as [_ Hb].
    + destruct (IH (n + 1) ltac:(lia) Hb) as [pre ->]. exists (AddRef :: pre). reflexivity.
    + destruct rest as [|op' rest'].
      * exists []. reflexivity.
      * assert (0 < n - 1) as Hpos by (apply (balanced_positive _ (op' :: rest')); [congruence | exact Hb]).
        destruct (IH (n - 1) Hpos Hb) as [pre Hpre]. rewrite Hpre.
        exists (Release :: pre). reflexivity.
Qed.

(** A balanced sequence that has not ended leaves the object alive,
    with the outstanding references as its count and nothing traced. *)
Lemma run_ref_ops_prefix (pre post : list RefOp) :
  post <> [] ->
  forall w p c,
    coroutines w !! p = Some c ->
    balanced (SuspendedCoroutine.m_refcount c) (pre ++ post) = true ->
    SuspendedCoroutine.m_refcount c + Z.of_nat (length pre) < UINTPTR_MODULUS ->
    exists w1 c1,
      run_ref_ops p pre w = Ok tt w1
      /\ coroutines w1 !! p = Some c1
      /\ SuspendedCoroutine.m_refcount c1 = held_after (SuspendedCoroutine.m_refcount c) pre
      /\ 0 < SuspendedCoroutine.m_refcount c1
      /\ SuspendedCoroutine.m_next c1 = SuspendedCoroutine.m_next c
      /\ trace w1 = trace w.
Proof.
  intros Hpost. induction pre as [|op pre IH]; intros w p c Hp Hb Hbound.
  - exists w, c. simpl in *. repeat split; try done.
    eapply balanced_positive; eauto.
  - assert (0 < SuspendedCoroutine.m_refcount c) as Hpos
      by (apply (balanced_positive _ ((op :: pre) ++ post)); [destruct pre; discriminate | exact Hb]).
    simpl in Hb. simpl length in Hbound.
    destruct op; apply andb_true_iff in Hb as [_ Hb]; simpl run_ref_ops;
      unfold bind at 1; unfold run_ref_op.
    + unfold bind at 1. rewrite (add_ref_live w p c Hp). unfold ret at 1.
      rewrite Z.mod_small by (unfold UINTPTR_MODULUS in *; lia).
      match goal with
      | |- context [run_ref_ops p pre ?w'] =>
          destruct (IH w' p (SuspendedCoroutine.set_refcount
                               (SuspendedCoroutine.m_refcount c + 1) c))
            as (w1 & c1 & Hrun & Hc1 & Hn & Hpos1 & Hnext & Htr);
            [apply lookup_insert_eq | simpl; exact Hb | simpl; lia |]
      end.
      exists w1, c1. split; [exact Hrun |]. repeat split; eauto.
    + destruct (decide (SuspendedCoroutine.m_refcount c = 1)) as [H1|H1].
      * rewrite H1 in Hb. simpl in Hb.
        rewrite unbalanced_from_zero in Hb; [discriminate | destruct pre; [exact Hpost | discriminate]].
      * rewrite (release_shared w p c Hp) by lia.
        rewrite Z.mod_small by (unfold UINTPTR_MODULUS in *; lia).
        match goal with
        | |- context [run_ref_ops p pre ?w'] =>
            destruct (IH w' p (SuspendedCoroutine.set_refcount
                                 (SuspendedCoroutine.m_refcount c - 1) c))
              as (w1 & c1 & Hrun & Hc1 & Hn & Hpos1 & Hnext & Htr);
              [apply lookup_insert_eq | simpl; exact Hb | simpl; lia |]
        end.
        exists w1, c1. split; [exact Hrun |]. repeat split; eauto.
Qed.

(** A balanced sequence run to its end deletes the object, once, and
    the destructor disposes of the continuation that is still attached. *)
Lemma run_ref_ops_balanced (ops : list RefOp) :
  forall w p c,
    coroutines w !! p = Some c ->
    0 < SuspendedCoroutine.m_refcount c ->
    balanced (SuspendedCoroutine.m_refcount c) ops = true ->
    SuspendedCoroutine.m_refcount c + Z.of_nat (length ops) < UINTPTR_MODULUS ->
    run_ref_ops p ops w =
      Ok tt {| receivers := receivers w; senders := senders w;
               coroutines := delete p (coroutines w);
               stream_awaiters := stream_awaiters w;
               trace := trace w ++ destroy_events (SuspendedCoroutine.m_next c) ++ [EvDelete p] |}.
Proof.
  induction ops as [|op rest IH]; intros w p c Hp Hpos Hb Hbound.
  - simpl in Hb. apply Z.eqb_eq in Hb. lia.
  - simpl in Hb. simpl length in Hbound.
    destruct op; apply andb_true_iff in Hb as [_ Hb]; simpl run_ref_ops;
      unfold bind at 1; unfold run_ref_op.
    + unfold bind at 1. rewrite (add_ref_live w p c Hp). unfold ret at 1.
      rewrite Z.mod_small by (unfold UINTPTR_MODULUS in *; lia).
      erewrite IH; [| apply lookup_insert_eq | simpl; lia | simpl; exact Hb | simpl; lia].
      simpl. rewrite delete_insert_eq. reflexivity.
    + destruct (decide (SuspendedCoroutine.m_refcount c = 1)) as [H1|H1].
      * rewrite (release_last w p c Hp H1).
        rewrite H1 in Hb. simpl in Hb.
        destruct rest; [reflexivity | rewrite unbalanced_from_zero in Hb; discriminate].
      * rewrite (release_shared w p c Hp) by lia.
        rewrite Z.mod_small by (unfold UINTPTR_MODULUS in *; lia).
        erewrite IH; [| apply lookup_insert_eq | simpl; lia | simpl; exact Hb | simpl; lia].
        simpl. rewrite delete_insert_eq. reflexivity.
Qed.

(** C10. [SuspendedCoroutine::release] asserts that the count it read
    before decrementing was strictly positive: on a count of zero (or
    anything that is not positive) the assertion ends the process, and
    nothing is deleted; the object is deleted exactly by the call that
    reads a count of one; a larger count is only decremented. *)
Theorem release_asserts_positive_refcount w p c :
  coroutines w !! p = Some c ->
  (SuspendedCoroutine.m_refcount c <= 0 ->
     exists w', SuspendedCoroutine_release p w = Fatal w'
       /\ coroutines w' !! p =
            Some (SuspendedCoroutine.set_refcount
                    ((SuspendedCoroutine.m_refcount c - 1) mod UINTPTR_MODULUS) c)
       /\ trace w' = trace w)
  /\ (SuspendedCoroutine.m_refcount c = 1 ->
        exists w', SuspendedCoroutine_release p w = Ok tt w'
          /\ coroutines w' !! p = None
          /\ trace w' =
               trace w ++ destroy_events (SuspendedCoroutine.m_next c) ++ [EvDelete p])
  /\ (1 < SuspendedCoroutine.m_refcount c ->
        exists w', SuspendedCoroutine_release p w = Ok tt w'
          /\ coroutines w' !! p =
               Some (SuspendedCoroutine.set_refcount
                       ((SuspendedCoroutine.m_refcount c - 1) mod UINTPTR_MODULUS) c)
          /\ trace w' = trace w).
Proof.
  intros Hp. split; [| split]; intros Hn.
  - eexists. split; [apply (release_nonpositive w p c Hp Hn) |].
    simpl. split; [apply lookup_insert_eq | reflexivity].
  - eexists. split; [apply (release_last w p c Hp Hn) |].
    simpl. split; [apply lookup_delete_eq | reflexivity].
  - eexists. split; [apply (release_shared w p c Hp Hn) |].
    simpl. split; [apply lookup_insert_eq | reflexivity].
Qed.

(** C4. The constructor sets the reference count to one. From an object
    whose count is one, every balanced sequence of [add_ref]/[release]
    calls that the counter can represent keeps the object alive, and
    traces no deletion, until its last call; that call is a [release],
    it is the one that brings the count to zero, and it deletes the
    object, once. A continuation still attached then is destroyed and
    not resumed. *)
Theorem refcount_balanced_destroyed_once w (next : Continuation) (wake_fn : WakeFn)
    (ops : list RefOp) :
  balanced 1 ops = true ->
  Z.of_nat (length ops) < UINTPTR_MODULUS - 1 ->
  (exists p w0,
     SuspendedCoroutine_new next wake_fn w = Ok p w0
     /\ coroutines w !! p = None
     /\ coroutines w0 !! p =
          Some {| SuspendedCoroutine.m_refcount := 1;
                  SuspendedCoroutine.m_next := Some next;
                  SuspendedCoroutine.m_wake_fn := wake_fn |})
  /\ (exists pre, ops = pre ++ [Release])
  /\ forall w0 p c,
       coroutines w0 !! p = Some c ->
       SuspendedCoroutine.m_refcount c = 1 ->
       (forall pre post, ops = pre ++ post -> post <> [] ->
          exists w1 c1,
            run_ref_ops p pre w0 = Ok tt w1
            /\ coroutines w1 !! p = Some c1
            /\ SuspendedCoroutine.m_refcount c1 = held_after 1 pre
            /\ 0 < SuspendedCoroutine.m_refcount c1
            /\ SuspendedCoroutine.m_next c1 = SuspendedCoroutine.m_next c
            /\ trace w1 = trace w0)
       /\ (exists w2,
             run_ref_ops p ops w0 = Ok tt w2
             /\ coroutines w2 !! p = None
             /\ trace w2 =
                  trace w0 ++ destroy_events (SuspendedCoroutine.m_next c) ++ [EvDelete p]
             /\ held_after 1 ops = 0).
Proof.
  intros Hb Hlen. split; [| split].
  - destruct (new_coroutine w next wake_fn) as [Hfresh Hnew].
    eexists _, _. split; [exact Hnew |]. split; [exact Hfresh |].
    simpl. apply lookup_insert_eq.
  - apply (balanced_ends_with_release ops 1); [lia | exact Hb].
  - intros w0 p c Hp Hc. split.
    + intros pre post -> Hpost.
      destruct (run_ref_ops_prefix pre post Hpost w0 p c Hp) as (w1 & c1 & H);
        [rewrite Hc; exact Hb | rewrite Hc, length_app in *; lia |].
      exists w1, c1. rewrite Hc in H. exact H.
    + eexists. split; [apply (run_ref_ops_balanced ops w0 p c Hp); rewrite ?Hc; try lia; exact Hb |].
      simpl. split; [apply lookup_delete_eq |]. split; [reflexivity |].
      clear - Hb. revert Hb. generalize 1. induction ops as [|[] rest IH]; simpl; intros n Hb.
      * apply Z.eqb_eq in Hb. exact Hb.
      * apply andb_true_iff in Hb as [_ Hb]. apply IH. exact Hb.
      * apply andb_true_iff in Hb as [_ Hb]. apply IH. exact Hb.
Qed.

End RefcountProperties.

(** ** The continuation of a suspended coroutine *)

Section ContinuationProperties.

Context {T Future Sender : Type}.

Implicit Types (w : World T Future Sender) (p : addr) (c : SuspendedCoroutine.t)
  (k : Continuation).

Ltac run_call :=
  unfold SuspendedCoroutine_destructor, SuspendedCoroutine_resume, forget_coroutine_handle,
    Continuation_destroy, Continuation_resume, cxxasync_assert,
    emit, store_coroutine, load_coroutine, bind, ret, set_coroutines, set_trace;
  simpl.

Lemma resume_attached w p c k :
  coroutines w !! p = Some c ->
  SuspendedCoroutine.m_next c = Some k ->
  SuspendedCoroutine_resume p w =
    Ok tt {| receivers := receivers w; senders := senders w;
             coroutines := <[p := SuspendedCoroutine.set_next None c]> (coroutines w);
             stream_awaiters := stream_awaiters w;
             trace := trace w ++ [EvResume k] |}.
Proof.
  intros Hp Hk. run_call. rewrite Hp, Hk. simpl.
  rewrite lookup_insert_eq. simpl. rewrite insert_insert_eq. reflexivity.
Qed.

Lemma resume_detached w p c :
  coroutines w !! p = Some c ->
  SuspendedCoroutine.m_next c = None ->
  SuspendedCoroutine_resume p w = Fatal w.
Proof. intros Hp Hk. run_call. rewrite Hp, Hk. reflexivity. Qed.

Lemma destructor_attached w p c k :
  coroutines w !! p = Some c ->
  SuspendedCoroutine.m_next c = Some k ->
  SuspendedCoroutine_destructor p w =
    Ok tt {| receivers := receivers w; senders := senders w;
             coroutines := <[p := SuspendedCoroutine.set_next None c]> (coroutines w);
             stream_awaiters := stream_awaiters w;
             trace := trace w ++ [EvDestroy k] |}.
Proof. intros Hp Hk. run_call. rewrite Hp, Hk. reflexivity. Qed.

Lemma destructor_detached w p c :
  coroutines w !! p = Some c ->
  SuspendedCoroutine.m_next c = None ->
  SuspendedCoroutine_destructor p w = Ok tt w.
Proof. intros Hp Hk. run_call. rewrite Hp, Hk. reflexivity. Qed.

(** Once the continuation is detached, no call reaches it. *)
Lemma run_uses_detached (us : list ContinuationUse) :
  forall w p c w',
    coroutines w !! p = Some c ->
    SuspendedCoroutine.m_next c = None ->
    outcome_world (run_uses p us w) = Some w' ->
    trace w' = trace w.
Proof.
  induction us as [|u rest IH]; intros w p c w' Hp Hk Hw.
  - simpl in Hw. injection Hw as <-. reflexivity.
  - simpl in Hw. unfold bind in Hw. destruct u; simpl in Hw.
    + rewrite (resume_detached w p c Hp Hk) in Hw. simpl in Hw. injection Hw as <-. reflexivity.
    + rewrite (destructor_detached w p c Hp Hk) in Hw. eapply IH; eauto.
Qed.

(** C6. [resume] runs the continuation in a state in which the
    coroutine no longer holds it, and asserts when there is none to
    run; whatever sequence of [resume] and destructor calls is made on
    a coroutine, the continuation is resumed or destroyed at most once
    in all. *)
Theorem continuation_consumed_at_most_once w p c (us : list ContinuationUse) :
  coroutines w !! p = Some c ->
  (forall k, SuspendedCoroutine.m_next c = Some k ->
     exists w1,
       coroutines w1 !! p = Some (SuspendedCoroutine.set_next None c)
       /\ trace w1 = trace w
       /\ SuspendedCoroutine_resume p w = Continuation_resume k w1)
  /\ (SuspendedCoroutine.m_next c = None -> SuspendedCoroutine_resume p w = Fatal w)
  /\ (forall w', outcome_world (run_uses p us w) = Some w' ->
        exists evs,
          trace w' = trace w ++ evs
          /\ (continuation_transitions evs <= 1)%nat
          /\ (SuspendedCoroutine.m_next c = None -> evs = [])).
Proof.
  intros Hp. split; [| split].
  - intros k Hk.
    exists {| receivers := receivers w; senders := senders w;
              coroutines := <[p := SuspendedCoroutine.set_next None c]> (coroutines w);
              stream_awaiters := stream_awaiters w; trace := trace w |}.
    simpl. split; [apply lookup_insert_eq |]. split; [reflexivity |].
    rewrite (resume_attached w p c k Hp Hk). reflexivity.
  - apply resume_detached. exact Hp.
  - intros w' Hw. destruct (SuspendedCoroutine.m_next c) as [k|] eqn:Hk.
    + destruct us as [|u rest].
      * simpl in Hw. injection Hw as <-. exists []. rewrite app_nil_r. unfold continuation_transitions. simpl. split; [reflexivity |]. split; [lia | discriminate].
      * simpl in Hw. unfold bind in Hw. destruct u; simpl in Hw.
        -- rewrite (resume_attached w p c k Hp Hk) in Hw.
           eapply run_uses_detached in Hw; [| simpl; apply lookup_insert_eq | reflexivity].
           simpl in Hw. exists [EvResume k]. split; [exact Hw |]. split; [unfold continuation_transitions; simpl; lia | discriminate].
        -- rewrite (destructor_attached w p c k Hp Hk) in Hw.
           eapply run_uses_detached in Hw; [| simpl; apply lookup_insert_eq | reflexivity].
           simpl in Hw. exists [EvDestroy k]. split; [exact Hw |]. split; [unfold continuation_transitions; simpl; lia | discriminate].
    + exists []. rewrite app_nil_r. split; [| split; [unfold continuation_transitions; simpl; lia | reflexivity]].
      eapply run_uses_detached; eauto.
Qed.

End ContinuationProperties.

(** ** Waking *)

Section WakeProperties.

Context {T Future Sender : Type}.
Variable moved_from : T -> T.
Variable vtable : Vtable T Future Sender.

Implicit Types (w : World T Future Sender) (p r : addr) (c : SuspendedCoroutine.t)
  (rc : RustFutureReceiver T Future).

Lemma forget_live w p c :
  coroutines w !! p = Some c ->
  forget_coroutine_handle p w =
    Ok tt {| receivers := receivers w; senders := senders w;
             coroutines := <[p := SuspendedCoroutine.set_next None c]> (coroutines w);
             stream_awaiters := stream_awaiters w; trace := trace w |}.
Proof.
  intros Hp. unfold forget_coroutine_handle, bind, load_coroutine, store_coroutine.
  rewrite Hp. reflexivity.
Qed.

Lemma wake_status_is_done_true (status : Z) :
  wake_status_is_done status = true <->
  status = FutureWakeStatus.Complete \/ status = FutureWakeStatus.Error.
Proof.
  unfold wake_status_is_done. rewrite orb_true_iff, !Z.eqb_eq. reflexivity.
Qed.

Lemma wake_status_is_done_false (status : Z) :
  wake_status_is_done status = false <->
  status <> FutureWakeStatus.Complete /\ status <> FutureWakeStatus.Error.
Proof.
  unfold wake_status_is_done. rewrite orb_false_iff, !Z.eqb_neq. reflexivity.
Qed.

(** What [release] adds to the trace: nothing, or the disposal of the
    continuation followed by the deletion. *)
Lemma release_trace w p w' :
  outcome_world (SuspendedCoroutine_release p w) = Some w' ->
  receivers w' = receivers w
  /\ (trace w' = trace w
      \/ exists next, trace w' = trace w ++ destroy_events next ++ [EvDelete p]).
Proof.
  destruct (coroutines w !! p) as [c|] eqn:Hp.
  - destruct (Z_le_gt_dec (SuspendedCoroutine.m_refcount c) 0) as [Hn|Hn].
    + rewrite (release_nonpositive w p c Hp Hn). simpl. intros [= <-]. simpl. auto.
    + destruct (decide (SuspendedCoroutine.m_refcount c = 1)) as [H1|H1].
      * rewrite (release_last w p c Hp H1). simpl. intros [= <-]. simpl. eauto.
      * rewrite (release_shared w p c Hp) by lia. simpl. intros [= <-]. simpl. auto.
  - unfold SuspendedCoroutine_release, fetch_sub, bind, load_coroutine. rewrite Hp.
    discriminate.
Qed.

Lemma binding_calls_lifetime (next : option Continuation) p :
  binding_calls (destroy_events (T := T) next ++ [EvDelete p]) = 0%nat.
Proof. destruct next; reflexivity. Qed.

(** C7. A wake through the callback of a [RustAwaiter] whose receiver is
    gone returns [Dead] and changes nothing: no receiver is read, no
    reference is taken, nothing is polled, and the call is an ordinary
    return. *)
Theorem wake_after_receiver_destroyed w (weak_receiver : addr) :
  receivers w !! weak_receiver = None ->
  (forall coroutine : addr,
     call_wake_fn moved_from vtable (WakeReceiver weak_receiver) coroutine w =
       Ok FutureWakeStatus.Dead w)
  /\ (forall p c,
        coroutines w !! p = Some c ->
        SuspendedCoroutine.m_wake_fn c = WakeReceiver weak_receiver ->
        SuspendedCoroutine_wake moved_from vtable p w = Ok FutureWakeStatus.Dead w).
Proof.
  intros Hgone.
  assert (forall coroutine : addr,
            call_wake_fn moved_from vtable (WakeReceiver weak_receiver) coroutine w =
              Ok FutureWakeStatus.Dead w) as Hcall.
  { intros coroutine. unfold call_wake_fn. rewrite Hgone. reflexivity. }
  split; [exact Hcall |].
  intros p c Hp Hfn. unfold SuspendedCoroutine_wake, bind, load_coroutine.
  rewrite Hp, Hfn. apply Hcall.
Qed.

(** *** The receiver *)

Lemma outcome_world_bind {A B} (m : M T Future Sender A) (k : A -> M T Future Sender B) w w' :
  outcome_world (bind m k w) = Some w' ->
  (exists a w1, m w = Ok a w1 /\ outcome_world (k a w1) = Some w')
  \/ ((forall a w1, m w <> Ok a w1) /\ outcome_world (m w) = Some w').
Proof.
  unfold bind. destruct (m w) as [a w1|e w1|w1|] eqn:E; simpl; intros H.
  - left. eauto.
  - right. split; [discriminate | exact H].
  - right. split; [discriminate | exact H].
  - discriminate.
Qed.

(** Whatever [release] does, it polls nothing and leaves the receivers
    alone. *)
Lemma release_frame w p w' r :
  outcome_world (SuspendedCoroutine_release p w) = Some w' ->
  receivers w' = receivers w
  /\ exists evs, trace w' = trace w ++ evs /\ poll_statuses r evs = [].
Proof.
  destruct (coroutines w !! p) as [c|] eqn:Hp.
  - destruct (Z_le_gt_dec (SuspendedCoroutine.m_refcount c) 0) as [Hn|Hn].
    + rewrite (release_nonpositive w p c Hp Hn). simpl. intros [= <-]. simpl.
      split; [reflexivity |]. exists []. rewrite app_nil_r. done.
    + destruct (decide (SuspendedCoroutine.m_refcount c = 1)) as [H1|H1].
      * rewrite (release_last w p c Hp H1). simpl. intros [= <-]. simpl.
        split; [reflexivity |]. eexists. split; [reflexivity |].
        destruct (SuspendedCoroutine.m_next c); reflexivity.
      * rewrite (release_shared w p c Hp) by lia. simpl. intros [= <-]. simpl.
        split; [reflexivity |]. exists []. rewrite app_nil_r. done.
  - unfold SuspendedCoroutine_release, fetch_sub, bind, load_coroutine. rewrite Hp.
    discriminate.
Qed.

Lemma wake_done w r rc (coroutine : addr) :
  receivers w !! r = Some rc ->
  m_status rc <> FuturePollStatus.Pending ->
  RustFutureReceiver_wake vtable r coroutine w =
    bind (SuspendedCoroutine_release coroutine) (fun _ => ret FutureWakeStatus.Dead) w.
Proof.
  intros Hr Hs. unfold RustFutureReceiver_wake. unfold bind at 1. unfold load_receiver.
  rewrite Hr. apply Z.eqb_neq in Hs. rewrite Hs. reflexivity.
Qed.

Lemma wake_pending w r rc (coroutine : addr) :
  receivers w !! r = Some rc ->
  m_status rc = FuturePollStatus.Pending ->
  RustFutureReceiver_wake vtable r coroutine w =
    let '(future', result', status) :=
      future_poll vtable (m_future rc) (m_result rc) (Some coroutine) in
    Ok status
       {| receivers :=
            <[r := {| m_future := future'; m_result := result'; m_status := status |}]>
              (receivers w);
          senders := senders w; coroutines := coroutines w;
          stream_awaiters := stream_awaiters w;
          trace := trace w ++ [EvFuturePoll r (Some coroutine) status] |}.
Proof.
  intros Hr Hs. unfold RustFutureReceiver_wake. unfold bind at 1. unfold load_receiver.
  rewrite Hr, Hs. simpl.
  destruct (future_poll vtable (m_future rc) (m_result rc) (Some coroutine)) as [[f res] st].
  reflexivity.
Qed.

(** After the status has left [Pending], further wakes never poll and
    never touch the receiver. *)
Lemma wake_all_done (wakers : list addr) :
  forall w r rc w',
    receivers w !! r = Some rc ->
    m_status rc <> FuturePollStatus.Pending ->
    outcome_world (wake_all vtable r wakers w) = Some w' ->
    receivers w' = receivers w
    /\ exists evs, trace w' = trace w ++ evs /\ poll_statuses r evs = [].
Proof.
  induction wakers as [|c rest IH]; intros w r rc w' Hr Hs Hw.
  - simpl in Hw. injection Hw as <-. split; [reflexivity |]. exists []. rewrite app_nil_r. done.
  - simpl in Hw. apply outcome_world_bind in Hw as [(status & w1 & Hstep & Hw)|[_ Hw]].
    + rewrite (wake_done w r rc c Hr Hs) in Hstep.
      assert (outcome_world (SuspendedCoroutine_release c w) = Some w1) as Hrel.
      { unfold bind in Hstep. destruct (SuspendedCoroutine_release c w); try discriminate.
        unfold ret in Hstep. injection Hstep as _ <-. reflexivity. }
      apply (release_frame w c w1 r) in Hrel as (Hrecv & evs1 & Htr1 & Hp1).
      apply outcome_world_bind in Hw as [(statuses & w2 & Hrest & Hw)|[_ Hw]].
      * simpl in Hw. injection Hw as <-.
        destruct (IH w1 r rc w2) as (Hrecv2 & evs2 & Htr2 & Hp2);
          [rewrite Hrecv; exact Hr | exact Hs | rewrite Hrest; reflexivity |].
        split; [congruence |]. exists (evs1 ++ evs2).
        split; [rewrite Htr2, Htr1, app_assoc; reflexivity |].
        unfold poll_statuses in *. rewrite omap_app, Hp1, Hp2. reflexivity.
      * destruct (IH w1 r rc w') as (Hrecv2 & evs2 & Htr2 & Hp2);
          [rewrite Hrecv; exact Hr | exact Hs | exact Hw |].
        split; [congruence |]. exists (evs1 ++ evs2).
        split; [rewrite Htr2, Htr1, app_assoc; reflexivity |].
        unfold poll_statuses in *. rewrite omap_app, Hp1, Hp2. reflexivity.
    + rewrite (wake_done w r rc c Hr Hs) in Hw.
      apply outcome_world_bind in Hw as [(u & w1 & Hstep & Hw)|[_ Hw]].
      * simpl in Hw. injection Hw as <-.
        apply (release_frame w c w1 r). rewrite Hstep. reflexivity.
      * apply (release_frame w c w' r). exact Hw.
Qed.

Lemma poll_statuses_poll r (coroutine : option addr) (status : Z) (evs : list (Event T)) :
  poll_statuses r (EvFuturePoll r coroutine status :: evs) = status :: poll_statuses r evs.
Proof.
  unfold poll_statuses. simpl. rewrite bool_decide_eq_true_2 by reflexivity. reflexivity.
Qed.

Lemma wake_all_polls (wakers : list addr) :
  forall w r rc w',
    receivers w !! r = Some rc ->
    outcome_world (wake_all vtable r wakers w) = Some w' ->
    exists evs,
      trace w' = trace w ++ evs
      /\ no_poll_after_done (poll_statuses r evs) = true
      /\ (terminal_polls (poll_statuses r evs) <= 1)%nat.
Proof.
  induction wakers as [|c rest IH]; intros w r rc w' Hr Hw.
  - simpl in Hw. injection Hw as <-. exists []. rewrite app_nil_r.
    split; [reflexivity |]. split; [reflexivity | unfold terminal_polls; simpl; lia].
  - destruct (decide (m_status rc = FuturePollStatus.Pending)) as [Hs|Hs].
    + simpl in Hw. apply outcome_world_bind in Hw as [(status & w1 & Hstep & Hw)|[Hno Hw]].
      * rewrite (wake_pending w r rc c Hr Hs) in Hstep.
        destruct (future_poll vtable (m_future rc) (m_result rc) (Some c)) as [[f res] st].
        injection Hstep as <- <-.
        assert (exists w2, outcome_world (wake_all vtable r rest
                  {| receivers :=
                       <[r := {| m_future := f; m_result := res; m_status := st |}]> (receivers w);
                     senders := senders w; coroutines := coroutines w;
                     stream_awaiters := stream_awaiters w;
                     trace := trace w ++ [EvFuturePoll r (Some c) st] |}) = Some w2
                  /\ trace w2 = trace w') as (w2 & Hw2 & Htr).
        { apply outcome_world_bind in Hw as [(statuses & w2 & Hrest & Hw)|[_ Hw]].
          - simpl in Hw. injection Hw as <-. exists w2. rewrite Hrest. done.
          - exists w'. done. }
        destruct (decide (st = FuturePollStatus.Pending)) as [Hst|Hst].
        -- destruct (IH _ r _ w2 (lookup_insert_eq _ _ _) Hw2) as (evs & Hevs & Hshape & Hcount).
           simpl in Hevs. exists (EvFuturePoll r (Some c) st :: evs).
           split; [rewrite <- Htr, Hevs, <- app_assoc; reflexivity |].
           rewrite poll_statuses_poll. subst st. simpl. split; [exact Hshape |].
           unfold terminal_polls in *. simpl. exact Hcount.
        -- destruct (wake_all_done rest _ r {| m_future := f; m_result := res; m_status := st |} w2
                       (lookup_insert_eq _ _ _) Hst Hw2)
             as (_ & evs & Hevs & Hnone).
           simpl in Hevs. exists (EvFuturePoll r (Some c) st :: evs).
           split; [rewrite <- Htr, Hevs, <- app_assoc; reflexivity |].
           rewrite poll_statuses_poll, Hnone. simpl.
           apply Z.eqb_neq in Hst. rewrite Hst. split; [reflexivity |].
           unfold terminal_polls. simpl. destruct (wake_status_is_done st); simpl; lia.
      * exfalso. rewrite (wake_pending w r rc c Hr Hs) in Hno.
        destruct (future_poll vtable (m_future rc) (m_result rc) (Some c)) as [[f res] st].
        eapply Hno. reflexivity.
    + destruct (wake_all_done (c :: rest) w r rc w' Hr Hs Hw) as (_ & evs & Hevs & Hnone).
      exists evs. split; [exact Hevs |]. rewrite Hnone. split; [reflexivity |].
      unfold terminal_polls. simpl. lia.
Qed.

(** C1. While the status is [Pending] a wake polls once and stores and
    returns what the poll reported. Once the status is anything else, a
    wake polls nothing, leaves the receiver as it is, releases the
    coroutine reference it was given and returns [Dead]. So over any
    sequence of wakes on one receiver no poll follows a poll that
    reported something other than [Pending], and at most one poll
    reports [Complete] or [Error]. *)
Theorem receiver_completes_at_most_once w r rc (wakers : list addr) :
  receivers w !! r = Some rc ->
  (m_status rc <> FuturePollStatus.Pending ->
     forall (coroutine : addr) c,
       coroutines w !! coroutine = Some c ->
       0 < SuspendedCoroutine.m_refcount c ->
       exists w',
         RustFutureReceiver_wake vtable r coroutine w = Ok FutureWakeStatus.Dead w'
         /\ receivers w' = receivers w
         /\ trace w' =
              trace w ++
              (if SuspendedCoroutine.m_refcount c =? 1
               then destroy_events (SuspendedCoroutine.m_next c) ++ [EvDelete coroutine]
               else [])
         /\ coroutines w' !! coroutine =
              if SuspendedCoroutine.m_refcount c =? 1 then None
              else Some (SuspendedCoroutine.set_refcount
                           ((SuspendedCoroutine.m_refcount c - 1) mod UINTPTR_MODULUS) c))
  /\ (m_status rc = FuturePollStatus.Pending ->
        forall coroutine : addr,
        exists w' rc',
          RustFutureReceiver_wake vtable r coroutine w = Ok (m_status rc') w'
          /\ future_poll vtable (m_future rc) (m_result rc) (Some coroutine) =
               (m_future rc', m_result rc', m_status rc')
          /\ receivers w' !! r = Some rc'
          /\ coroutines w' = coroutines w
          /\ trace w' = trace w ++ [EvFuturePoll r (Some coroutine) (m_status rc')])
  /\ (forall w',
        outcome_world (wake_all vtable r wakers w) = Some w' ->
        exists evs,
          trace w' = trace w ++ evs
          /\ no_poll_after_done (poll_statuses r evs) = true
          /\ (terminal_polls (poll_statuses r evs) <= 1)%nat
          /\ (m_status rc <> FuturePollStatus.Pending ->
                poll_statuses r evs = [] /\ receivers w' !! r = Some rc)).
Proof.
  intros Hr. split; [| split].
  - intros Hs coroutine c Hc Hpos. rewrite (wake_done w r rc coroutine Hr Hs). unfold bind.
    destruct (decide (SuspendedCoroutine.m_refcount c = 1)) as [H1|H1].
    + rewrite (release_last w coroutine c Hc H1). eexists. split; [reflexivity |].
      simpl. rewrite H1. simpl. repeat split. apply lookup_delete_eq.
    + rewrite (release_shared w coroutine c Hc) by lia. eexists. split; [reflexivity |].
      simpl. apply Z.eqb_neq in H1. rewrite H1. rewrite app_nil_r. repeat split.
      apply lookup_insert_eq.
  - intros Hs coroutine. rewrite (wake_pending w r rc coroutine Hr Hs).
    destruct (future_poll vtable (m_future rc) (m_result rc) (Some coroutine)) as [[f res] st].
    eexists _, {| m_future := f; m_result := res; m_status := st |}.
    split; [reflexivity |]. simpl. repeat split. apply lookup_insert_eq.
  - intros w' Hw.
    destruct (wake_all_polls wakers w r rc w' Hr Hw) as (evs & Hevs & Hshape & Hcount).
    exists evs. repeat split; try assumption.
    + destruct (wake_all_done wakers w r rc w' Hr H Hw) as (_ & evs' & Hevs' & Hnone).
      rewrite Hevs in Hevs'. apply app_inv_head in Hevs'. subst evs'. exact Hnone.
    + destruct (wake_all_done wakers w r rc w' Hr H Hw) as (Hrecv & _).
      rewrite Hrecv. exact Hr.
Qed.

(** *** The stream awaiter *)

Lemma poll_next_run w (a : addr) (aw : RustStreamAwaiter T) (coroutine : addr) c (sd : Sender) :
  stream_awaiters w !! a = Some aw ->
  senders w !! m_sender aw = Some sd ->
  coroutines w !! coroutine = Some c ->
  let value := SendResult (RustFutureResult.m_result (m_value aw)) in
  let sent := sender_send vtable sd FuturePollStatus.Running value (Some coroutine) in
  let w1 (v : T) :=
    {| receivers := receivers w;
       senders := <[m_sender aw := sent.1]> (senders w);
       coroutines :=
         <[coroutine := SuspendedCoroutine.set_refcount
                          ((SuspendedCoroutine.m_refcount c + 1) mod UINTPTR_MODULUS) c]>
           (coroutines w);
       stream_awaiters := <[a := {| m_sender := m_sender aw; m_value := v |}]> (stream_awaiters w);
       trace :=
         trace w ++
         [EvSenderSend (m_sender aw) FuturePollStatus.Running value (Some coroutine) sent.2] |} in
  RustStreamAwaiter_poll_next moved_from vtable a coroutine w =
    if sent.2 =? RustSendResult.Sent then Ok FutureWakeStatus.Complete (w1 (moved_from (m_value aw)))
    else if sent.2 =? RustSendResult.Wait then Ok FutureWakeStatus.Pending (w1 (m_value aw))
    else if sent.2 =? RustSendResult.Finished then Fatal (w1 (moved_from (m_value aw)))
    else Undefined.
Proof.
  intros Ha Hs Hc. simpl.
  unfold RustStreamAwaiter_poll_next, noexcept, bind, load_stream_awaiter, store_value,
    SuspendedCoroutine_add_ref, fetch_add, load_coroutine, store_coroutine, bind, ret,
    call_sender_send, cxxasync_assert, terminate, undefined, set_stream_awaiters,
    set_coroutines, set_senders, set_trace.
  rewrite Ha. simpl. rewrite Ha. simpl. rewrite Hc. simpl. rewrite Hs.
  destruct (sender_send vtable sd FuturePollStatus.Running
              (SendResult (RustFutureResult.m_result (m_value aw))) (Some coroutine))
    as [sd' result].
  simpl.
  destruct (result =? RustSendResult.Sent); [reflexivity |].
  destruct (result =? RustSendResult.Wait).
  - simpl. rewrite lookup_insert_eq. simpl. rewrite insert_insert_eq. reflexivity.
  - destruct (result =? RustSendResult.Finished); reflexivity.
Qed.

(** C3. [poll_next] sends the pending value once, tagged [Running], with
    a new reference to the coroutine as the waker. On [Sent] it returns
    [Complete]. On [Wait] it returns [Pending] with the awaiter holding
    the value it held before, and a retry sends that same value. On
    [Finished] the assertion ends the process. *)
Theorem poll_next_backpressure w (a : addr) (aw : RustStreamAwaiter T) (coroutine : addr) c
    (sd : Sender) :
  stream_awaiters w !! a = Some aw ->
  senders w !! m_sender aw = Some sd ->
  coroutines w !! coroutine = Some c ->
  let value := SendResult (RustFutureResult.m_result (m_value aw)) in
  let send_result :=
    (sender_send vtable sd FuturePollStatus.Running value (Some coroutine)).2 in
  let sent :=
    EvSenderSend (m_sender aw) FuturePollStatus.Running value (Some coroutine) send_result in
  (send_result = RustSendResult.Sent ->
     exists w',
       RustStreamAwaiter_poll_next moved_from vtable a coroutine w =
         Ok FutureWakeStatus.Complete w'
       /\ trace w' = trace w ++ [sent])
  /\ (send_result = RustSendResult.Wait ->
        exists w',
          RustStreamAwaiter_poll_next moved_from vtable a coroutine w =
            Ok FutureWakeStatus.Pending w'
          /\ trace w' = trace w ++ [sent]
          /\ stream_awaiters w' !! a = Some aw
          /\ forall w'',
               outcome_world (RustStreamAwaiter_poll_next moved_from vtable a coroutine w') =
                 Some w'' ->
               exists result : Z,
                 trace w'' =
                   trace w' ++
                   [EvSenderSend (m_sender aw) FuturePollStatus.Running value
                      (Some coroutine) result])
  /\ (send_result = RustSendResult.Finished ->
        exists w',
          RustStreamAwaiter_poll_next moved_from vtable a coroutine w = Fatal w'
          /\ trace w' = trace w ++ [sent]).
Proof.
  intros Ha Hs Hc value send_result sent.
  pose proof (poll_next_run w a aw coroutine c sd Ha Hs Hc) as Hrun. simpl in Hrun.
  fold value in Hrun. fold send_result in Hrun. clearbody send_result.
  split; [| split]; intros Hres; subst send_result; rewrite Hrun; simpl.
  - eexists. split; reflexivity.
  - eexists. split; [reflexivity |]. simpl. split; [reflexivity |].
    split; [rewrite lookup_insert_eq; destruct aw; reflexivity |].
    intros w'' Hw''.
    match type of Hw'' with
    | outcome_world (RustStreamAwaiter_poll_next _ _ _ _ ?w1) = _ =>
        pose proof (poll_next_run w1 a aw coroutine
                      (SuspendedCoroutine.set_refcount
                         ((SuspendedCoroutine.m_refcount c + 1) mod UINTPTR_MODULUS) c)
                      (sender_send vtable sd FuturePollStatus.Running value (Some coroutine)).1)
          as Hretry
    end.
    simpl in Hretry. rewrite Hretry in Hw''.
    + clear Hretry. fold value in Hw''.
      exists (sender_send vtable
                (sender_send vtable sd FuturePollStatus.Running value (Some coroutine)).1
                FuturePollStatus.Running value (Some coroutine)).2.
      repeat match type of Hw'' with
             | context [if ?b then _ else _] => destruct b
             end;
        simpl in Hw''; try discriminate; injection Hw'' as <-; reflexivity.
    + rewrite lookup_insert_eq. destruct aw; reflexivity.
    + apply lookup_insert_eq.
    + apply lookup_insert_eq.
  - eexists. split; reflexivity.
Qed.

(** *** The first suspension *)

(** A wake that returns has called the binding table at most once. *)
Lemma wake_calls_binding_once w p (status : Z) w1 :
  SuspendedCoroutine_wake moved_from vtable p w = Ok status w1 ->
  exists evs, trace w1 = trace w ++ evs /\ (binding_calls evs <= 1)%nat.
Proof.
  unfold SuspendedCoroutine_wake, bind, load_coroutine.
  destruct (coroutines w !! p) as [c|] eqn:Hp; [| discriminate].
  destruct (SuspendedCoroutine.m_wake_fn c) as [r|a]; unfold call_wake_fn.
  - destruct (receivers w !! r) as [rc|] eqn:Hr.
    + unfold bind at 1. rewrite (add_ref_live w p c Hp).
      destruct (decide (m_status rc = FuturePollStatus.Pending)) as [Hs|Hs].
      * match goal with
        | |- context [RustFutureReceiver_wake vtable r p ?wA] =>
            rewrite (wake_pending wA r rc p Hr Hs)
        end.
        destruct (future_poll vtable (m_future rc) (m_result rc) (Some p)) as [[f res] st].
        intros [= <- <-]. simpl. eexists. split; [reflexivity |].
        unfold binding_calls. simpl. lia.
      * match goal with
        | |- context [RustFutureReceiver_wake vtable r p ?wA] =>
            rewrite (wake_done wA r rc p Hr Hs)
        end.
        unfold bind.
        match goal with
        | |- context [SuspendedCoroutine_release p ?wA] =>
            destruct (SuspendedCoroutine_release p wA) as [u w'| | |] eqn:Hrel;
              try discriminate;
              pose proof (release_trace wA p w') as Htrace
        end.
        rewrite Hrel in Htrace. intros [= <- <-].
        destruct (Htrace eq_refl) as (_ & [Hsame|[next Hdel]]); simpl in *.
        -- exists []. rewrite app_nil_r. split; [exact Hsame | unfold binding_calls; simpl; lia].
        -- eexists. split; [exact Hdel |]. rewrite binding_calls_lifetime. lia.
    + intros [= <- <-]. exists []. rewrite app_nil_r.
      split; [reflexivity | unfold binding_calls; simpl; lia].
  - destruct (stream_awaiters w !! a) as [aw|] eqn:Ha.
    + destruct (senders w !! m_sender aw) as [sd|] eqn:Hsd.
      * rewrite (poll_next_run w a aw p c sd Ha Hsd Hp). simpl.
        repeat match goal with
               | |- context [if ?b then _ else _] => destruct b
               end;
          try discriminate; intros [= <- <-]; simpl;
          (eexists; split; [reflexivity | unfold binding_calls; simpl; lia]).
      * unfold RustStreamAwaiter_poll_next, noexcept, bind, load_stream_awaiter, store_value,
          SuspendedCoroutine_add_ref, fetch_add, load_coroutine, store_coroutine, bind, ret,
          call_sender_send, set_stream_awaiters, set_coroutines.
        rewrite Ha. simpl. rewrite Ha. simpl. rewrite Hp. simpl. rewrite Hsd. discriminate.
    + unfold RustStreamAwaiter_poll_next, noexcept, bind, load_stream_awaiter.
      rewrite Ha. discriminate.
Qed.

(** C5. [initial_suspend] wakes once, which makes at most one call
    through the binding table, and then gives up the reference it was
    called with. When the wake reports [Complete] or [Error] it returns
    false and the continuation is detached first, so that the deletion
    that may follow does not destroy it; for every other status
    ([Pending] and [Dead] among them) it returns true and the
    continuation stays with the coroutine. *)
Theorem initial_suspend_polls_once w p (status : Z) w1 c1 :
  SuspendedCoroutine_wake moved_from vtable p w = Ok status w1 ->
  coroutines w1 !! p = Some c1 ->
  0 < SuspendedCoroutine.m_refcount c1 ->
  exists w2,
    SuspendedCoroutine_initial_suspend moved_from vtable p w =
      Ok (negb (wake_status_is_done status)) w2
    /\ (exists evs, trace w1 = trace w ++ evs /\ (binding_calls evs <= 1)%nat)
    /\ (status = FutureWakeStatus.Complete \/ status = FutureWakeStatus.Error ->
          wake_status_is_done status = true
          /\ trace w2 =
               trace w1 ++ (if SuspendedCoroutine.m_refcount c1 =? 1 then [EvDelete p] else [])
          /\ coroutines w2 !! p =
               if SuspendedCoroutine.m_refcount c1 =? 1 then None
               else Some (SuspendedCoroutine.set_refcount
                            ((SuspendedCoroutine.m_refcount c1 - 1) mod UINTPTR_MODULUS)
                            (SuspendedCoroutine.set_next None c1)))
    /\ (status <> FutureWakeStatus.Complete -> status <> FutureWakeStatus.Error ->
          wake_status_is_done status = false
          /\ trace w2 =
               trace w1 ++
               (if SuspendedCoroutine.m_refcount c1 =? 1
                then destroy_events (SuspendedCoroutine.m_next c1) ++ [EvDelete p] else [])
          /\ coroutines w2 !! p =
               if SuspendedCoroutine.m_refcount c1 =? 1 then None
               else Some (SuspendedCoroutine.set_refcount
                            ((SuspendedCoroutine.m_refcount c1 - 1) mod UINTPTR_MODULUS) c1)).
Proof.
  intros Hwake Hp Hpos.
  pose proof (wake_calls_binding_once w p status w1 Hwake) as Hcalls.
  unfold SuspendedCoroutine_initial_suspend. unfold bind at 1. rewrite Hwake.
  destruct (wake_status_is_done status) eqn:Hdone.
  - unfold bind at 1. rewrite (forget_live w1 p c1 Hp).
    destruct (decide (SuspendedCoroutine.m_refcount c1 = 1)) as [H1|H1].
    + unfold bind. erewrite release_last; [| simpl; apply lookup_insert_eq | exact H1].
      eexists. split; [reflexivity |]. split; [exact Hcalls |]. simpl. rewrite H1. simpl. split.
      * intros _. split; [reflexivity |]. split; [reflexivity | apply lookup_delete_eq].
      * intros Hc He. apply wake_status_is_done_true in Hdone. tauto.
    + unfold bind. erewrite release_shared; [| simpl; apply lookup_insert_eq | simpl; lia].
      eexists. split; [reflexivity |]. split; [exact Hcalls |]. simpl.
      apply Z.eqb_neq in H1. rewrite H1. split.
      * intros _. split; [reflexivity |]. split; [symmetry; apply app_nil_r | apply lookup_insert_eq].
      * intros Hc He. apply wake_status_is_done_true in Hdone. tauto.
  - unfold bind at 1. unfold ret at 1.
    destruct (decide (SuspendedCoroutine.m_refcount c1 = 1)) as [H1|H1].
    + unfold bind. rewrite (release_last w1 p c1 Hp H1).
      eexists. split; [reflexivity |]. split; [exact Hcalls |]. simpl. rewrite H1. simpl. split.
      * intros Hd. apply wake_status_is_done_false in Hdone. tauto.
      * intros _ _. split; [reflexivity |]. split; [reflexivity | apply lookup_delete_eq].
    + unfold bind. rewrite (release_shared w1 p c1 Hp) by lia.
      eexists. split; [reflexivity |]. split; [exact Hcalls |]. simpl.
      apply Z.eqb_neq in H1. rewrite H1. split.
      * intros Hd. apply wake_status_is_done_false in Hdone. tauto.
      * intros _ _. split; [reflexivity |]. split; [symmetry; apply app_nil_r | apply lookup_insert_eq].
Qed.

End WakeProperties.

(** ** C strings *)

Lemma strlen_c_str (s : string) : strlen (c_str s) = strlen s.
Proof.
  unfold c_str. induction s as [|ch rest IH]; simpl.
  - reflexivity.
  - destruct (is_NUL ch); [reflexivity | rewrite IH; reflexivity].
Qed.

Lemma substring_strlen_c_str (s : string) :
  String.substring 0 (strlen s) (c_str s) = String.substring 0 (strlen s) s.
Proof.
  unfold c_str. induction s as [|ch rest IH]; simpl.
  - reflexivity.
  - destruct (is_NUL ch); simpl; [reflexivity | rewrite IH; reflexivity].
Qed.

(** The text of a terminated copy of [s] is [s] up to its first NUL. *)
Lemma c_string_text_c_str (s : string) : c_string_text (c_str s) = c_string_text s.
Proof. unfold c_string_text. rewrite strlen_c_str. apply substring_strlen_c_str. Qed.

Lemma strlen_copy (message : string) :
  strlen (String.substring 0 (strlen message + 1) message) = strlen message.
Proof.
  induction message as [|ch rest IH]; simpl.
  - reflexivity.
  - destruct (is_NUL ch) eqn:E; simpl; rewrite E; [reflexivity | rewrite IH; reflexivity].
Qed.

Lemma substring_copy (message : string) :
  String.substring 0 (strlen message)
    (String.substring 0 (strlen message + 1) message) =
  String.substring 0 (strlen message) message.
Proof.
  induction message as [|ch rest IH]; simpl.
  - reflexivity.
  - destruct (is_NUL ch) eqn:E; simpl; [reflexivity | rewrite IH; reflexivity].
Qed.

(** [Error(message).what()] reads as [message] does. *)
Lemma Error_what_text (message : string) :
  c_string_text (Error.what (Error.new message)) = c_string_text message.
Proof.
  unfold Error.what, Error.new, Error.copy_from, c_string_text. simpl.
  rewrite strlen_copy. apply substring_copy.
Qed.

Lemma c_string_text_no_NUL (s : string) :
  strlen s = String.length s -> c_string_text s = s.
Proof.
  unfold c_string_text. induction s as [|ch rest IH]; simpl.
  - reflexivity.
  - destruct (is_NUL ch); [discriminate |]. intros [= H]. rewrite (IH H). reflexivity.
Qed.

(** ** The result of a future *)

Section ResultProperties.

Context {T Future Sender : Type}.

Implicit Types (w : World T Future Sender) (r : addr) (rc : RustFutureReceiver T Future).

(** C2, as amended. [get_result] returns the stored value when the
    status is [Complete]; when it is [Error] it throws an [Error] whose
    text is the stored message up to its first NUL character, which is
    the whole message when it contains none; when it is [Pending] or
    [Running] the process is terminated. The receiver is left as it
    was. *)
Theorem get_result_by_status w r rc :
  receivers w !! r = Some rc ->
  (m_status rc = FuturePollStatus.Complete ->
     forall v : T, m_result rc = RustFutureResult.m_result v ->
       RustFutureReceiver_get_result r w = Ok v w)
  /\ (m_status rc = FuturePollStatus.Error ->
        forall s : string, m_result rc = RustFutureResult.m_exception s ->
          exists e : Error.t,
            RustFutureReceiver_get_result r w = Thrown (ExnError e) w
            /\ c_string_text (Error.what e) = c_string_text s
            /\ (strlen s = String.length s -> c_string_text (Error.what e) = s))
  /\ (m_status rc = FuturePollStatus.Pending \/ m_status rc = FuturePollStatus.Running ->
        RustFutureReceiver_get_result r w = Fatal w).
Proof.
  intros Hr. unfold RustFutureReceiver_get_result, bind, load_receiver. rewrite Hr.
  split; [| split].
  - intros Hs v Hv. rewrite Hs, Hv. reflexivity.
  - intros Hs s Hv. rewrite Hs, Hv. simpl.
    exists (Error.new (c_str s)). split; [reflexivity |].
    rewrite Error_what_text, c_string_text_c_str.
    split; [reflexivity | apply c_string_text_no_NUL].
  - intros [Hs|Hs]; rewrite Hs; reflexivity.
Qed.

End ResultProperties.

(** ** The promise *)

Section PromiseProperties.

Context {T Future Sender : Type}.
Variable vtable : Vtable T Future Sender.

Implicit Types (w : World T Future Sender) (promise : RustPromiseBase) (sd : Sender).

Lemma call_sender_send_live w (s : addr) sd (status : Z) (value : SendValue T)
    (waker_data : option addr) :
  senders w !! s = Some sd ->
  call_sender_send vtable s status value waker_data w =
    Ok (sender_send vtable sd status value waker_data).2
       {| receivers := receivers w;
          senders := <[s := (sender_send vtable sd status value waker_data).1]> (senders w);
          coroutines := coroutines w; stream_awaiters := stream_awaiters w;
          trace :=
            trace w ++
            [EvSenderSend s status value waker_data
               (sender_send vtable sd status value waker_data).2] |}.
Proof.
  intros Hs. unfold call_sender_send. rewrite Hs.
  destruct (sender_send vtable sd status value waker_data). reflexivity.
Qed.

(** C9. On normal completion the promise makes one [sender_send] call
    tagged [Complete] and passes no waker: [return_value] passes the
    address of a [RustFutureResult] holding the returned value,
    [return_void] passes a null pointer. *)
Theorem promise_return_sends_complete w promise sd :
  senders w !! m_channel_sender promise = Some sd ->
  (forall value : T,
     exists (w' : World T Future Sender) (result : Z),
       RustPromise_return_value vtable promise value w = Ok tt w'
       /\ trace w' =
            trace w ++
            [EvSenderSend (m_channel_sender promise) FuturePollStatus.Complete
               (SendResult (RustFutureResult.m_result value)) None result])
  /\ (exists (w' : World T Future Sender) (result : Z),
        RustPromise_return_void vtable promise w = Ok tt w'
        /\ trace w' =
             trace w ++
             [EvSenderSend (m_channel_sender promise) FuturePollStatus.Complete
                SendNull None result]).
Proof.
  intros Hs. split.
  - intros value. unfold RustPromise_return_value, bind.
    rewrite (call_sender_send_live w _ sd _ _ _ Hs). eexists _, _. split; reflexivity.
  - unfold RustPromise_return_void, bind.
    rewrite (call_sender_send_live w _ sd _ _ _ Hs). eexists _, _. split; reflexivity.
Qed.

(** C8, as amended. [unhandled_exception] hands the failure to the
    [TryCatch] strategy; when the strategy reduces it to a message, one
    [sender_send] tagged [Error] carries that message, with no waker.
    The strategy the header supplies reduces a failure derived from
    [std::exception] to its [what()]; any other failure is not caught
    by it, and leaving the [noexcept] function terminates the process
    with nothing sent. *)
Theorem unhandled_exception_sends_error w promise sd (current : Exception) :
  senders w !! m_channel_sender promise = Some sd ->
  (forall (strategy : TryCatch T Future Sender) (what : string),
     (forall (fail : string -> M T Future Sender unit) w0,
        strategy (throw current) fail w0 = noexcept (fail what) w0) ->
     exists (w' : World T Future Sender) (result : Z),
       RustPromiseBase_unhandled_exception vtable (H := strategy) promise current w = Ok tt w'
       /\ trace w' =
            trace w ++
            [EvSenderSend (m_channel_sender promise) FuturePollStatus.Error
               (SendMessage what) None result])
  /\ (forall what : string,
        std_exception_what current = Some what ->
        (forall (fail : string -> M T Future Sender unit) w0,
           default_trycatch (throw current) fail w0 = noexcept (fail what) w0)
        /\ exists (w' : World T Future Sender) (result : Z),
             RustPromiseBase_unhandled_exception vtable (H := default_trycatch)
               promise current w = Ok tt w'
             /\ trace w' =
                  trace w ++
                  [EvSenderSend (m_channel_sender promise) FuturePollStatus.Error
                     (SendMessage what) None result])
  /\ (std_exception_what current = None ->
        RustPromiseBase_unhandled_exception vtable (H := default_trycatch) promise current w =
          Fatal w).
Proof.
  intros Hs.
  assert (forall (strategy : TryCatch T Future Sender) (what : string),
            (forall (fail : string -> M T Future Sender unit) w0,
               strategy (throw current) fail w0 = noexcept (fail what) w0) ->
            exists (w' : World T Future Sender) (result : Z),
              RustPromiseBase_unhandled_exception vtable (H := strategy) promise current w =
                Ok tt w'
              /\ trace w' =
                   trace w ++
                   [EvSenderSend (m_channel_sender promise) FuturePollStatus.Error
                      (SendMessage what) None result]) as Hany.
  { intros strategy what Hreduce.
    unfold RustPromiseBase_unhandled_exception, trycatch. unfold noexcept at 1.
    rewrite Hreduce. unfold noexcept, bind.
    rewrite (call_sender_send_live w _ sd _ _ _ Hs).
    eexists _, _. split; reflexivity. }
  assert (forall what : string,
            std_exception_what current = Some what ->
            forall (fail : string -> M T Future Sender unit) w0,
              default_trycatch (throw current) fail w0 = noexcept (fail what) w0) as Hdefault.
  { intros what Hwhat fail w0. unfold default_trycatch, noexcept, throw.
    rewrite Hwhat. reflexivity. }
  split; [exact Hany |]. split.
  - intros what Hwhat. split; [exact (Hdefault what Hwhat) |].
    apply Hany. exact (Hdefault what Hwhat).
  - intros Hnone.
    unfold RustPromiseBase_unhandled_exception, trycatch, default_trycatch, noexcept, throw.
    rewrite Hnone. reflexivity.
Qed.

End PromiseProperties.

(** * The bridge on concrete inputs *)

Example scenario_receiver_completes :
  exists w1 w2,
    RustFutureReceiver_wake scripted_vtable 2 1 receiver_world = Ok FutureWakeStatus.Pending w1
    /\ RustFutureReceiver_wake scripted_vtable 2 1 w1 = Ok FutureWakeStatus.Complete w2
    /\ RustFutureReceiver_get_result 2 w2 = Ok 42 w2
    /\ exists w3, RustFutureReceiver_wake scripted_vtable 2 1 w2 = Ok FutureWakeStatus.Dead w3
         /\ poll_statuses 2 (trace w3) = [FuturePollStatus.Pending; FuturePollStatus.Complete].
Proof.
  eexists _, _. split; [vm_compute; reflexivity |].
  split; [vm_compute; reflexivity |].
  split; [vm_compute; reflexivity |].
  eexists. split; vm_compute; reflexivity.
Qed.

Example scenario_stream_backpressure :
  exists w1 w2,
    RustStreamAwaiter_poll_next scripted_moved_from scripted_vtable 3 1
      (stream_world [RustSendResult.Wait; RustSendResult.Sent]) = Ok FutureWakeStatus.Pending w1
    /\ RustStreamAwaiter_poll_next scripted_moved_from scripted_vtable 3 1 w1 =
         Ok FutureWakeStatus.Complete w2
    /\ trace w2 =
         [EvSenderSend 4 FuturePollStatus.Running (SendResult (RustFutureResult.m_result 7))
            (Some 1%positive) RustSendResult.Wait;
          EvSenderSend 4 FuturePollStatus.Running (SendResult (RustFutureResult.m_result 7))
            (Some 1%positive) RustSendResult.Sent].
Proof.
  eexists _, _. split; [vm_compute; reflexivity |]. split; vm_compute; reflexivity.
Qed.

(** A future that is ready at the first poll: [await_suspend] returns
    false, the continuation is neither resumed nor destroyed, and the
    awaiting side reads 42. *)
Example scenario_await_ready :
  exists w',
    RustAwaiter_await_suspend scripted_moved_from scripted_vtable {| m_receiver := 2 |} 9
      (scripted_world
         [(2%positive, RustFutureReceiver_new
                         [(RustFutureResult.m_result 42, FuturePollStatus.Complete)])]
         [] [] []) = Ok false w'
    /\ continuation_transitions (trace w') = 0%nat
    /\ RustFutureReceiver_get_result 2 w' = Ok 42 w'.
Proof. eexists. split; [vm_compute; reflexivity |]. split; vm_compute; reflexivity. Qed.

(** A stream whose channel accepts at once: the yield does not suspend. *)
Example scenario_yield_sent :
  exists w',
    RustStreamAwaiter_await_suspend scripted_moved_from scripted_vtable 3 9
      (scripted_world [] [(4%positive, [])] [] [(3%positive, yielding_awaiter)]) = Ok false w'
    /\ binding_calls (trace w') = 1%nat.
Proof. eexists. split; vm_compute; reflexivity. Qed.

(** ** C1 *)

Lemma receiver_completes_at_most_once_witness :
  receivers receiver_world !! 2%positive = Some pending_receiver
  /\ exists w' evs,
       wake_all scripted_vtable 2 [1; 1; 1]%positive receiver_world =
         Ok [FutureWakeStatus.Pending; FutureWakeStatus.Complete; FutureWakeStatus.Dead] w'
       /\ trace w' = trace receiver_world ++ evs
       /\ (terminal_polls (poll_statuses 2 evs) <= 1)%nat.
Proof.
  assert (receivers receiver_world !! 2%positive = Some pending_receiver) as Hr
    by reflexivity.
  split; [exact Hr |].
  destruct (receiver_completes_at_most_once scripted_vtable receiver_world 2%positive
              pending_receiver [1; 1; 1]%positive Hr) as (_ & _ & Hall).
  assert (exists w', wake_all scripted_vtable 2 [1; 1; 1]%positive receiver_world =
            Ok [FutureWakeStatus.Pending; FutureWakeStatus.Complete; FutureWakeStatus.Dead] w')
    as [w' Hrun] by (eexists; vm_compute; reflexivity).
  destruct (Hall w') as (evs & Htr & _ & Hcount & _); [rewrite Hrun; reflexivity |].
  exists w', evs. split; [exact Hrun |]. split; assumption.
Defined.

(** ** C2 *)

Lemma get_result_by_status_witness :
  receivers (failed_world "boom") !! 2%positive = Some (failed_receiver "boom")
  /\ exists e : Error.t,
       RustFutureReceiver_get_result 2 (failed_world "boom") =
         Thrown (ExnError e) (failed_world "boom")
       /\ c_string_text (Error.what e) = "boom"%string.
Proof.
  assert (receivers (failed_world "boom") !! 2%positive = Some (failed_receiver "boom")) as Hr
    by reflexivity.
  split; [exact Hr |].
  destruct (get_result_by_status (failed_world "boom") 2%positive (failed_receiver "boom") Hr)
    as (_ & Herror & _).
  destruct (Herror eq_refl "boom"%string eq_refl) as (e & Hthrow & _ & Htext).
  exists e. split; [exact Hthrow |]. apply Htext. reflexivity.
Defined.

(** The stored message is the three bytes a, NUL, b; the [Error] that
    [get_result] throws reads as the single byte a. *)
Lemma get_result_truncates_message_at_NUL :
  m_result (failed_receiver message_with_NUL) = RustFutureResult.m_exception message_with_NUL
  /\ RustFutureReceiver_get_result 2 (failed_world message_with_NUL) =
       Thrown (ExnError (Error.new (c_str message_with_NUL))) (failed_world message_with_NUL)
  /\ c_string_text (Error.what (Error.new (c_str message_with_NUL))) = "a"%string
  /\ ~ (exists e : Error.t,
          RustFutureReceiver_get_result 2 (failed_world message_with_NUL) =
            Thrown (ExnError e) (failed_world message_with_NUL)
          /\ c_string_text (Error.what e) = message_with_NUL).
Proof.
  split; [reflexivity |]. split; [reflexivity |]. split; [reflexivity |].
  intros (e & Hthrow & Htext).
  assert (RustFutureReceiver_get_result 2 (failed_world message_with_NUL) =
            Thrown (ExnError (Error.new (c_str message_with_NUL)))
              (failed_world message_with_NUL)) as Hrun by reflexivity.
  rewrite Hrun in Hthrow. injection Hthrow as <-. discriminate Htext.
Qed.

(** ** C3 *)

Lemma poll_next_backpressure_witness :
  exists w',
    RustStreamAwaiter_poll_next scripted_moved_from scripted_vtable 3 1
      (stream_world [RustSendResult.Wait; RustSendResult.Sent]) =
      Ok FutureWakeStatus.Pending w'
    /\ stream_awaiters w' !! 3%positive = Some yielding_awaiter.
Proof.
  destruct (poll_next_backpressure scripted_moved_from scripted_vtable
              (stream_world [RustSendResult.Wait; RustSendResult.Sent])
              3%positive yielding_awaiter 1%positive
              {| SuspendedCoroutine.m_refcount := 1;
                 SuspendedCoroutine.m_next := Some (CoroutineHandleContinuation 9);
                 SuspendedCoroutine.m_wake_fn := WakeStream 3 |}
              [RustSendResult.Wait; RustSendResult.Sent] eq_refl eq_refl eq_refl)
    as (_ & Hwait & _).
  destruct (Hwait eq_refl) as (w' & Hrun & _ & Haw & _).
  exists w'. split; assumption.
Defined.

(** ** C4 *)

Lemma refcount_balanced_destroyed_once_witness :
  balanced 1 [AddRef; Release; AddRef; AddRef; Release; Release; Release] = true
  /\ exists w2,
       run_ref_ops 1 [AddRef; Release; AddRef; AddRef; Release; Release; Release]
         (refcount_world 1) = Ok tt w2
       /\ coroutines w2 !! 1%positive = None
       /\ trace w2 = [EvDestroy (CoroutineHandleContinuation 9); EvDelete 1%positive].
Proof.
  split; [reflexivity |].
  destruct (refcount_balanced_destroyed_once (refcount_world 1)
              (CoroutineHandleContinuation 9) (WakeReceiver 2)
              [AddRef; Release; AddRef; AddRef; Release; Release; Release]
              eq_refl eq_refl) as (_ & _ & Hrun).
  destruct (Hrun (refcount_world 1) 1%positive (waiting_coroutine 1) eq_refl eq_refl)
    as (_ & w2 & Hops & Hgone & Htrace & _).
  exists w2. split; [exact Hops |]. split; [exact Hgone | exact Htrace].
Defined.

(** ** C5 *)

Lemma initial_suspend_polls_once_witness :
  exists w2,
    SuspendedCoroutine_initial_suspend scripted_moved_from scripted_vtable 1
      (scripted_world
         [(2%positive, RustFutureReceiver_new
                         [(RustFutureResult.m_result 42, FuturePollStatus.Complete)])]
         [] [(1%positive, waiting_coroutine 1)] []) = Ok false w2
    /\ coroutines w2 !! 1%positive =
         Some (SuspendedCoroutine.set_refcount 1
                 (SuspendedCoroutine.set_next None (waiting_coroutine 2))).
Proof.
  assert (exists w1,
            SuspendedCoroutine_wake scripted_moved_from scripted_vtable 1
              (scripted_world
                 [(2%positive, RustFutureReceiver_new
                                 [(RustFutureResult.m_result 42, FuturePollStatus.Complete)])]
                 [] [(1%positive, waiting_coroutine 1)] []) = Ok FutureWakeStatus.Complete w1
            /\ coroutines w1 !! 1%positive = Some (waiting_coroutine 2))
    as (w1 & Hwake & Hc1) by (eexists; split; vm_compute; reflexivity).
  destruct (initial_suspend_polls_once scripted_moved_from scripted_vtable _
              1%positive FutureWakeStatus.Complete w1 (waiting_coroutine 2) Hwake Hc1 eq_refl)
    as (w2 & Hrun & _ & Hdone & _).
  exists w2. split; [exact Hrun |].
  destruct (Hdone (or_introl eq_refl)) as (_ & _ & Hheap). exact Hheap.
Defined.

(** ** C6 *)

Lemma continuation_consumed_at_most_once_witness :
  coroutines (refcount_world 1) !! 1%positive = Some (waiting_coroutine 1)
  /\ exists w' evs,
       run_uses 1 [UseResume; UseDestructor; UseResume] (refcount_world 1) = Fatal w'
       /\ trace w' = trace (refcount_world 1) ++ evs
       /\ (continuation_transitions evs <= 1)%nat.
Proof.
  split; [reflexivity |].
  destruct (continuation_consumed_at_most_once (refcount_world 1) 1%positive
              (waiting_coroutine 1) [UseResume; UseDestructor; UseResume] eq_refl)
    as (_ & _ & Hseq).
  assert (exists w', run_uses 1 [UseResume; UseDestructor; UseResume] (refcount_world 1) =
                       Fatal w') as [w' Hrun] by (eexists; vm_compute; reflexivity).
  destruct (Hseq w') as (evs & Htrace & Hcount & _); [rewrite Hrun; reflexivity |].
  exists w', evs. split; [exact Hrun |]. split; assumption.
Defined.

(** ** C7 *)

Lemma wake_after_receiver_destroyed_witness :
  receivers (refcount_world 1) !! 2%positive = None
  /\ SuspendedCoroutine_wake scripted_moved_from scripted_vtable 1 (refcount_world 1) =
       Ok FutureWakeStatus.Dead (refcount_world 1).
Proof.
  split; [reflexivity |].
  destruct (wake_after_receiver_destroyed scripted_moved_from scripted_vtable
              (refcount_world 1) 2%positive eq_refl) as (_ & Hwake).
  exact (Hwake 1%positive (waiting_coroutine 1) eq_refl eq_refl).
Defined.

(** ** C8 *)

Lemma unhandled_exception_sends_error_witness :
  senders (stream_world []) !! 4%positive = Some []
  /\ exists w',
       RustPromiseBase_unhandled_exception scripted_vtable (H := default_trycatch)
         scripted_promise (ExnStd (c_str "boom")) (stream_world []) = Ok tt w'
       /\ trace w' =
            [EvSenderSend 4 FuturePollStatus.Error (SendMessage (c_str "boom")) None
               RustSendResult.Sent]
       /\ c_string_text (c_str "boom") = "boom"%string.
Proof.
  split; [reflexivity |].
  destruct (unhandled_exception_sends_error scripted_vtable (stream_world [])
              scripted_promise [] (ExnStd (c_str "boom")) eq_refl) as (_ & Hstd & _).
  destruct (Hstd (c_str "boom") eq_refl) as (_ & w' & result & Hrun & Htrace).
  exists w'. split; [exact Hrun |]. split; [| reflexivity].
  assert (RustPromiseBase_unhandled_exception scripted_vtable (H := default_trycatch)
            scripted_promise (ExnStd (c_str "boom")) (stream_world []) =
          Ok tt (set_trace (fun _ => [EvSenderSend 4 FuturePollStatus.Error
                                        (SendMessage (c_str "boom")) None RustSendResult.Sent])
                   (stream_world []))) as Heval by (vm_compute; reflexivity).
  rewrite Heval in Hrun. injection Hrun as <-. reflexivity.
Defined.

(** Consumer code throws the integer 42. The strategy of the header does
    not catch it: the process is terminated, and nothing is sent. *)
Lemma unhandled_exception_foreign_failure_terminates :
  RustPromiseBase_unhandled_exception scripted_vtable (H := default_trycatch)
    scripted_promise (ExnForeign 42) (stream_world []) = Fatal (stream_world [])
  /\ ~ (exists w' (what : string) (result : Z),
          RustPromiseBase_unhandled_exception scripted_vtable (H := default_trycatch)
            scripted_promise (ExnForeign 42) (stream_world []) = Ok tt w'
          /\ trace w' =
               trace (stream_world []) ++
               [EvSenderSend 4 FuturePollStatus.Error (SendMessage what) None result]).
Proof.
  assert (RustPromiseBase_unhandled_exception scripted_vtable (H := default_trycatch)
            scripted_promise (ExnForeign 42) (stream_world []) = Fatal (stream_world []))
    as Hrun by reflexivity.
  split; [exact Hrun |].
  intros (w' & what & result & Hok & _). rewrite Hrun in Hok. discriminate Hok.
Qed.

(** ** C9 *)

Lemma promise_return_sends_complete_witness :
  senders (stream_world []) !! 4%positive = Some []
  /\ (exists w' result,
        RustPromise_return_value scripted_vtable scripted_promise 42 (stream_world []) =
          Ok tt w'
        /\ trace w' =
             [EvSenderSend 4 FuturePollStatus.Complete
                (SendResult (RustFutureResult.m_result 42)) None result])
  /\ (exists w' result,
        RustPromise_return_void scripted_vtable scripted_promise (stream_world []) = Ok tt w'
        /\ trace w' = [EvSenderSend 4 FuturePollStatus.Complete SendNull None result]).
Proof.
  split; [reflexivity |].
  destruct (promise_return_sends_complete scripted_vtable (stream_world [])
              scripted_promise [] eq_refl) as (Hvalue & Hvoid).
  split; [exact (Hvalue 42) | exact Hvoid].
Defined.

(** ** C10 *)

Lemma release_asserts_positive_refcount_witness :
  coroutines (refcount_world 0) !! 1%positive = Some (waiting_coroutine 0)
  /\ exists w',
       SuspendedCoroutine_release 1 (refcount_world 0) = Fatal w'
       /\ coroutines w' !! 1%positive = Some (waiting_coroutine (UINTPTR_MODULUS - 1))
       /\ trace w' = [].
Proof.
  split; [reflexivity |].
  destruct (release_asserts_positive_refcount (refcount_world 0) 1%positive
              (waiting_coroutine 0) eq_refl) as (Hzero & _ & _).
  exact (Hzero ltac:(simpl; lia)).
Defined.

(** * Further properties *)

(** ** The storage of [Error] *)

Section ErrorStoreProperties.

Import ErrorStore.

Implicit Types (m : ErrorStore.t) (self other array from : addr) (chars : string).

Lemma length_copy chars :
  terminated chars = true ->
  String.length (String.substring 0 (strlen chars + 1) chars) = (strlen chars + 1)%nat.
Proof.
  unfold terminated. rewrite bool_decide_eq_true.
  induction chars as [|ch rest IH]; simpl.
  - lia.
  - destruct (is_NUL ch); simpl; [destruct rest; reflexivity |].
    intros H. rewrite IH by lia. reflexivity.
Qed.

Lemma terminated_copy chars :
  terminated chars = true ->
  terminated (Error.m_message (Error.copy_from chars)) = true.
Proof.
  intros H. unfold terminated, Error.copy_from. simpl. apply bool_decide_eq_true.
  rewrite strlen_copy, length_copy by exact H. lia.
Qed.

Lemma text_copy chars :
  c_string_text (Error.m_message (Error.copy_from chars)) = c_string_text chars.
Proof. exact (Error_what_text chars). Qed.

Lemma copy_from_live m self from chars :
  arrays m !! from = Some chars ->
  terminated chars = true ->
  copy_from self (Some from) m =
    Some {| objects := <[self := Some (fresh (dom (arrays m)))]> (objects m);
            arrays := <[fresh (dom (arrays m)) := Error.m_message (Error.copy_from chars)]>
                        (arrays m) |}.
Proof.
  intros Hfrom Hterm. unfold copy_from, allocate_copy. rewrite Hfrom, Hterm. reflexivity.
Qed.

Lemma fresh_array m : arrays m !! fresh (dom (arrays m)) = None.
Proof. apply not_elem_of_dom, is_fresh. Qed.

(** Adding a copy to a store that is in order, as the value of a new
    or emptied object, keeps it in order. *)
Lemma owned_after_copy m self chars :
  owned m ->
  (objects m !! self = None \/ objects m !! self = Some None) ->
  terminated chars = true ->
  owned {| objects := <[self := Some (fresh (dom (arrays m)))]> (objects m);
           arrays := <[fresh (dom (arrays m)) := chars]> (arrays m) |}.
Proof.
  intros (Hvalid & Hunshared & Hleak) Hself Hterm.
  pose proof (fresh_array m) as Hfresh.
  assert (forall s, objects m !! s <> Some (Some (fresh (dom (arrays m))))) as Hnone.
  { intros s Hs. destruct (Hvalid s _ Hs) as (? & Ha & _). congruence. }
  split; [| split].
  - intros s a. simpl. rewrite lookup_insert. case_decide as Hs.
    + intros [= <-]. exists chars. rewrite lookup_insert_eq. done.
    + intros Hsa. destruct (Hvalid s a Hsa) as (cs & Ha & Ht). exists cs.
      rewrite lookup_insert_ne by congruence. done.
  - intros s s' a. simpl. rewrite !lookup_insert.
    repeat case_decide; subst; try done.
    + intros [= <-] Hs'. exfalso. eapply Hnone; eauto.
    + intros Hs [= <-]. exfalso. eapply Hnone; eauto.
    + apply Hunshared.
  - intros a. simpl. rewrite lookup_insert. case_decide as Ha.
    + subst a. intros _. exists self. apply lookup_insert_eq.
    + intros Hal. destruct (Hleak a Hal) as (s & Hs). exists s.
      rewrite lookup_insert_ne; [exact Hs |]. intros <-. destruct Hself; congruence.
Qed.

(** Freeing the array of an object, and nulling or removing the object,
    keeps the store in order. *)
Lemma owned_after_free m self array (left : option (option addr)) :
  owned m ->
  objects m !! self = Some (Some array) ->
  (left = None \/ left = Some None) ->
  owned {| objects := match left with
                      | Some message => <[self := message]> (objects m)
                      | None => delete self (objects m)
                      end;
           arrays := delete array (arrays m) |}.
Proof.
  intros (Hvalid & Hunshared & Hleak) Hself Hleft.
  assert (forall s a,
            match left with
            | Some message => <[self := message]> (objects m)
            | None => delete self (objects m)
            end !! s = Some (Some a) ->
            s <> self /\ objects m !! s = Some (Some a) /\ a <> array) as Hkept.
  { intros s a. destruct Hleft as [-> | ->].
    - rewrite lookup_delete. case_decide; [done |]. intros Hs.
      repeat split; [congruence | exact Hs |]. intros ->. eauto.
    - rewrite lookup_insert. case_decide; [done |]. intros Hs.
      repeat split; [congruence | exact Hs |]. intros ->. eauto. }
  split; [| split].
  - intros s a Hs. simpl in *. apply Hkept in Hs as (_ & Hs & Ha).
    destruct (Hvalid s a Hs) as (cs & Hcs & Ht). exists cs.
    rewrite lookup_delete_ne by congruence. done.
  - intros s s' a Hs Hs'. simpl in *.
    apply Hkept in Hs as (_ & Hs & _). apply Hkept in Hs' as (_ & Hs' & _). eauto.
  - intros a. simpl. rewrite lookup_delete. case_decide as Ha; [intros [? ?]; done |].
    intros Hal. destruct (Hleak a Hal) as (s & Hs). exists s.
    assert (s <> self) by (intros ->; congruence).
    destruct Hleft as [-> | ->].
    + rewrite lookup_delete_ne by congruence. exact Hs.
    + rewrite lookup_insert_ne by congruence. exact Hs.
Qed.

Lemma what_text_live m self array chars :
  objects m !! self = Some (Some array) ->
  arrays m !! array = Some chars ->
  terminated chars = true ->
  what_text self m = Some (c_string_text chars).
Proof. intros Hs Ha Ht. unfold what_text. rewrite Hs, Ha, Ht. reflexivity. Qed.

(** X1. Copying keeps the store in order and copies the text: the
    converting constructor, the copy constructor and the copy
    assignment between two distinct objects each leave every message in
    an array of its own, allocated and terminated, with no array
    orphaned; the new value reads as the source does, and the source is
    untouched. *)
Theorem Error_copies_are_deep m self other from :
  owned m ->
  objects m !! other = Some (Some from) ->
  self <> other ->
  (objects m !! self = None ->
     (forall message : string,
        terminated message = true ->
        exists m', construct self message m = Some m'
          /\ owned m'
          /\ what_text self m' = Some (c_string_text message)
          /\ what_text other m' = what_text other m)
     /\ exists m', copy_construct self other m = Some m'
          /\ owned m'
          /\ what_text self m' = what_text other m
          /\ what_text other m' = what_text other m
          /\ is_Some (what_text other m))
  /\ (is_Some (objects m !! self) ->
        exists m', copy_assign self other m = Some m'
          /\ owned m'
          /\ what_text self m' = what_text other m
          /\ what_text other m' = what_text other m
          /\ (size (arrays m') =
                size (arrays m) + (if objects m !! self is Some (Some _) then 0 else 1))%nat).
Proof.
  intros Howned Hother Hne.
  pose proof Howned as (Hvalid & Hunshared & Hleak).
  destruct (Hvalid other from Hother) as (chars & Hfrom & Hterm).
  pose proof (what_text_live m other from chars Hother Hfrom Hterm) as Htext.
  pose proof (fresh_array m) as Hfresh.
  assert (from <> fresh (dom (arrays m))) as Hff by congruence.
  split.
  - intros Hself. split.
    + intros message Hmsg. unfold construct, allocate_copy. rewrite Hmsg.
      eexists. split; [reflexivity |]. split; [| split].
      * apply owned_after_copy; [exact Howned | auto | apply terminated_copy, Hmsg].
      * erewrite what_text_live;
          [| simpl; apply lookup_insert_eq | simpl; apply lookup_insert_eq
           | apply terminated_copy, Hmsg].
        f_equal. apply text_copy.
      * rewrite Htext. eapply what_text_live; simpl; [| | exact Hterm].
        -- rewrite lookup_insert_ne by congruence. exact Hother.
        -- rewrite lookup_insert_ne by congruence. exact Hfrom.
    + unfold copy_construct. rewrite Hother, (copy_from_live m self from chars Hfrom Hterm).
      eexists. split; [reflexivity |]. split; [| split; [| split]].
      * apply owned_after_copy; [exact Howned | auto | apply terminated_copy, Hterm].
      * rewrite Htext. erewrite what_text_live;
          [| simpl; apply lookup_insert_eq | simpl; apply lookup_insert_eq
           | apply terminated_copy, Hterm].
        f_equal. apply text_copy.
      * rewrite Htext. eapply what_text_live; simpl; [| | exact Hterm].
        -- rewrite lookup_insert_ne by congruence. exact Hother.
        -- rewrite lookup_insert_ne by congruence. exact Hfrom.
      * rewrite Htext. eauto.
  - intros [message Hself]. unfold copy_assign, destroy. rewrite Hself.
    destruct message as [old|].
    + destruct (Hvalid self old Hself) as (oldchars & Hold & _). rewrite Hold. simpl.
      rewrite Hother.
      assert (from <> old) as Hfo by (intros ->; apply Hne; eauto).
      pose proof (owned_after_free m self old (Some None) Howned Hself (or_intror eq_refl))
        as Hfreed.
      set (m1 := {| objects := <[self := None]> (objects m);
                    arrays := delete old (arrays m) |}) in Hfreed.
      assert (arrays m1 !! from = Some chars) as Hfrom1
        by (simpl; rewrite lookup_delete_ne by congruence; exact Hfrom).
      pose proof (fresh_array m1) as Hfresh1. simpl in Hfresh1.
      erewrite copy_from_live; [| simpl; rewrite lookup_delete_ne by congruence; exact Hfrom
                                | exact Hterm].
      simpl. eexists. split; [reflexivity |]. split; [| split; [| split]].
      * pose proof (owned_after_copy m1 self (Error.m_message (Error.copy_from chars)) Hfreed
                      (or_intror (lookup_insert_eq _ _ _)) (terminated_copy chars Hterm))
          as Hcopied.
        simpl in Hcopied. rewrite insert_insert_eq in Hcopied. exact Hcopied.
      * rewrite Htext. erewrite what_text_live;
          [| simpl; apply lookup_insert_eq | simpl; apply lookup_insert_eq
           | apply terminated_copy, Hterm].
        f_equal. apply text_copy.
      * rewrite Htext. eapply what_text_live; simpl; [| | exact Hterm].
        -- rewrite lookup_insert_ne by congruence. exact Hother.
        -- rewrite lookup_insert_ne by (simpl in Hfrom1; congruence). exact Hfrom1.
      * simpl. rewrite map_size_insert_None by exact Hfresh1.
        pose proof (map_size_delete_Some old (arrays m) (ex_intro _ oldchars Hold)) as Hsz.
        assert (size (arrays m) <> 0%nat)
          by (intros H0; apply map_size_empty_inv in H0; rewrite H0 in Hold; done).
        lia.
    + simpl. rewrite Hother, (copy_from_live m self from chars Hfrom Hterm).
      eexists. split; [reflexivity |]. split; [| split; [| split]].
      * apply owned_after_copy; [exact Howned | auto | apply terminated_copy, Hterm].
      * rewrite Htext. erewrite what_text_live;
          [| simpl; apply lookup_insert_eq | simpl; apply lookup_insert_eq
           | apply terminated_copy, Hterm].
        f_equal. apply text_copy.
      * rewrite Htext. eapply what_text_live; simpl; [| | exact Hterm].
        -- rewrite lookup_insert_ne by congruence. exact Hother.
        -- rewrite lookup_insert_ne by congruence. exact Hfrom.
      * simpl. rewrite map_size_insert_None by exact Hfresh. lia.
Qed.

Lemma owned_after_move m self other (message : option addr) :
  owned m ->
  objects m !! other = Some message ->
  objects m !! self = None ->
  owned {| objects := <[other := None]> (<[self := message]> (objects m));
           arrays := arrays m |}.
Proof.
  intros (Hvalid & Hunshared & Hleak) Hother Hself.
  assert (self <> other) as Hne by congruence.
  split; [| split].
  - intros s a. simpl. rewrite !lookup_insert. repeat case_decide; subst; try done.
    + intros [= ->]. eauto.
    + apply Hvalid.
  - intros s s' a. simpl. rewrite !lookup_insert. repeat case_decide; subst; try done.
    + intros [= ->] Hs'. exfalso. eauto.
    + intros Hs [= ->]. exfalso. eauto.
    + apply Hunshared.
  - intros a Ha. simpl in *. destruct (Hleak a Ha) as (s & Hs).
    destruct (decide (s = other)) as [-> | Hso].
    + exists self. rewrite lookup_insert_ne by congruence.
      rewrite lookup_insert_eq. congruence.
    + exists s. rewrite !lookup_insert_ne by congruence. exact Hs.
Qed.

Lemma owned_after_remove_null m self :
  owned m ->
  objects m !! self = Some None ->
  owned {| objects := delete self (objects m); arrays := arrays m |}.
Proof.
  intros (Hvalid & Hunshared & Hleak) Hself. split; [| split].
  - intros s a. simpl. rewrite lookup_delete. case_decide; [done | apply Hvalid].
  - intros s s' a. simpl. rewrite !lookup_delete. repeat case_decide; try done.
    apply Hunshared.
  - intros a Ha. simpl in *. destruct (Hleak a Ha) as (s & Hs). exists s.
    rewrite lookup_delete_ne by congruence. exact Hs.
Qed.

(** X2. Moving and destroying keep the store in order: the move
    constructor hands the array over and leaves the source null, so the
    destructor of the source frees nothing; the destructor frees the
    array of its object, if it has one, and no other. *)
Theorem Error_move_and_destroy_keep_order m self other :
  owned m ->
  is_Some (objects m !! other) ->
  (objects m !! self = None ->
     exists m', move_construct self other m = Some m'
       /\ owned m'
       /\ what self m' = what other m
       /\ what other m' = Some None
       /\ arrays m' = arrays m
       /\ exists m'', destructor other m' = Some m''
            /\ arrays m'' = arrays m /\ what self m'' = what other m)
  /\ exists m', destructor other m = Some m'
       /\ owned m'
       /\ objects m' !! other = None
       /\ arrays m' =
            match objects m !! other with
            | Some (Some array) => delete array (arrays m)
            | _ => arrays m
            end.
Proof.
  intros Howned [message Hother]. pose proof Howned as (Hvalid & _ & _). split.
  - intros Hself. assert (self <> other) as Hne by congruence.
    unfold move_construct. rewrite Hother. eexists. split; [reflexivity |].
    split; [apply owned_after_move; assumption |].
    unfold what. simpl. rewrite lookup_insert_eq.
    rewrite lookup_insert_ne, lookup_insert_eq by congruence.
    repeat split; try done.
    unfold destructor, destroy. simpl. rewrite lookup_insert_eq.
    eexists. split; [reflexivity |]. simpl. split; [reflexivity |].
    rewrite lookup_delete_ne, lookup_insert_ne, lookup_insert_eq by congruence. done.
  - unfold destructor, destroy. rewrite Hother. destruct message as [array|].
    + destruct (Hvalid other array Hother) as (chars & Harray & _). rewrite Harray.
      eexists. split; [reflexivity |]. simpl.
      split; [exact (owned_after_free m other array None Howned Hother (or_introl eq_refl)) |].
      split; [apply lookup_delete_eq | reflexivity].
    + eexists. split; [reflexivity |]. simpl.
      split; [apply owned_after_remove_null; assumption |].
      split; [apply lookup_delete_eq | reflexivity].
Qed.

(** X3. Two uses of the copy operations have no defined result: an
    [Error] assigned to itself (its array is freed and then read), in
    every state; and a copy, by construction or by assignment, of an
    [Error] that was moved from ([strlen] of a null pointer). *)
Theorem Error_copy_undefined_cases m self other :
  copy_assign self self m = None
  /\ (objects m !! other = Some None ->
        copy_construct self other m = None /\ copy_assign self other m = None).
Proof.
  split.
  - unfold copy_assign, destroy.
    destruct (objects m !! self) as [[array|]|] eqn:Hself; [| | reflexivity].
    + destruct (arrays m !! array) eqn:Harray; [| reflexivity].
      simpl. rewrite Hself. unfold copy_from. simpl. rewrite lookup_delete_eq. reflexivity.
    + rewrite Hself. reflexivity.
  - intros Hother. split.
    + unfold copy_construct. rewrite Hother. reflexivity.
    + unfold copy_assign. destruct (destroy self m) as [m'|] eqn:Hdestroy; [| reflexivity].
      assert (objects m' = objects m) as ->.
      { unfold destroy in Hdestroy.
        destruct (objects m !! self) as [[array|]|]; try discriminate.
        - destruct (arrays m !! array); [| discriminate]. injection Hdestroy as <-. reflexivity.
        - injection Hdestroy as <-. reflexivity. }
      rewrite Hother. reflexivity.
Qed.

(** X4. The move assignment overwrites [m_message] without freeing the
    array it pointed to: that array stays allocated with no object
    pointing to it, and is still allocated after both objects have been
    destroyed. Assigned to itself, the object ends with a null message
    and its array orphaned. *)
Theorem Error_move_assign_leaks m self other array :
  owned m ->
  objects m !! self = Some (Some array) ->
  is_Some (objects m !! other) ->
  exists m', move_assign self other m = Some m'
    /\ what other m' = Some None
    /\ (self <> other -> what self m' = what other m)
    /\ arrays m' = arrays m
    /\ leaked m' array = true
    /\ (self <> other ->
          exists m1 m2, destructor other m' = Some m1
            /\ destructor self m1 = Some m2
            /\ is_Some (arrays m2 !! array)).
Proof.
  intros (Hvalid & Hunshared & Hleak) Hself [message Hother].
  destruct (Hvalid self array Hself) as (chars & Harray & _).
  unfold move_assign. rewrite Hself, Hother. eexists. split; [reflexivity |].
  unfold what. simpl. split; [apply lookup_insert_eq |].
  split; [intros Hne; rewrite lookup_insert_ne, lookup_insert_eq by congruence; done |].
  split; [reflexivity |]. split.
  - unfold leaked. apply bool_decide_eq_true. simpl. split; [eauto |].
    intros s x. rewrite !lookup_insert. repeat case_decide; subst.
    + intros [= <-]. discriminate.
    + intros [= <-] ->. apply H. eauto.
    + intros Hs ->. apply H0. eauto.
  - intros Hne. unfold destructor at 1. unfold destroy. simpl. rewrite lookup_insert_eq.
    destruct message as [b|].
    + destruct (Hvalid other b Hother) as (bchars & Hb & _).
      assert (b <> array) by (intros ->; apply Hne; eauto).
      eexists. eexists. split; [reflexivity |].
      unfold destructor, destroy. simpl.
      rewrite lookup_delete_ne, lookup_insert_ne, lookup_insert_eq by congruence.
      rewrite Hb. split; [reflexivity |]. simpl.
      rewrite lookup_delete_ne by congruence. eauto.
    + eexists. eexists. split; [reflexivity |].
      unfold destructor, destroy. simpl.
      rewrite lookup_delete_ne, lookup_insert_ne, lookup_insert_eq by congruence.
      split; [reflexivity |]. simpl. eauto.
Qed.

End ErrorStoreProperties.

(** ** The life of a waker and of an await *)

Lemma receiver_result_complete {T Future Sender : Type} (w : World T Future Sender)
    (r : addr) (future : Future) (v : T) :
  receivers w !! r =
    Some {| m_future := future; m_result := RustFutureResult.m_result v;
            m_status := FuturePollStatus.Complete |} ->
  RustFutureReceiver_get_result r w = Ok v w.
Proof.
  intros Hr. unfold RustFutureReceiver_get_result, bind, load_receiver. rewrite Hr. reflexivity.
Qed.

Lemma receiver_result_error {T Future Sender : Type} (w : World T Future Sender)
    (r : addr) (future : Future) (s : string) :
  receivers w !! r =
    Some {| m_future := future; m_result := RustFutureResult.m_exception s;
            m_status := FuturePollStatus.Error |} ->
  exists e, RustFutureReceiver_get_result r w = Thrown (ExnError e) w
    /\ c_string_text (Error.what e) = c_string_text s.
Proof.
  intros Hr. unfold RustFutureReceiver_get_result, bind, load_receiver. rewrite Hr. simpl.
  eexists. split; [reflexivity |]. rewrite Error_what_text. apply c_string_text_c_str.
Qed.

Section LifecycleProperties.

Context {T Future Sender : Type}.
Variable moved_from : T -> T.
Variable vtable : Vtable T Future Sender.

Implicit Types (w : World T Future Sender) (p r : addr) (c : SuspendedCoroutine.t).

Lemma release_after_add_ref w p c :
  coroutines w !! p = Some c ->
  1 <= SuspendedCoroutine.m_refcount c <= UINTPTR_MODULUS - 2 ->
  SuspendedCoroutine_release p
    {| receivers := receivers w; senders := senders w;
       coroutines :=
         <[p := SuspendedCoroutine.set_refcount
                  ((SuspendedCoroutine.m_refcount c + 1) mod UINTPTR_MODULUS) c]>
           (coroutines w);
       stream_awaiters := stream_awaiters w; trace := trace w |} = Ok tt w.
Proof.
  intros Hp Hn.
  rewrite Z.mod_small by (unfold UINTPTR_MODULUS in *; lia).
  erewrite release_shared; [| simpl; apply lookup_insert_eq | simpl; lia].
  simpl. replace (SuspendedCoroutine.m_refcount c + 1 - 1) with (SuspendedCoroutine.m_refcount c)
    by lia.
  rewrite Z.mod_small by (unfold UINTPTR_MODULUS in *; lia).
  rewrite insert_insert_eq.
  replace (SuspendedCoroutine.set_refcount (SuspendedCoroutine.m_refcount c)
             (SuspendedCoroutine.set_refcount (SuspendedCoroutine.m_refcount c + 1) c))
    with c by (destruct c; reflexivity).
  rewrite (insert_id _ _ _ Hp). destruct w; reflexivity.
Qed.

(** X5. Taking a reference and giving it back leaves the coroutine and
    everything else exactly as they were, for every count the counter
    can increment. At the largest count the increment wraps to zero and
    the release asserts. In the other order, a release that finds a
    count of one deletes the object, and the increment that follows
    uses a dangling pointer. *)
Theorem add_ref_release_round_trip w p c :
  coroutines w !! p = Some c ->
  (1 <= SuspendedCoroutine.m_refcount c <= UINTPTR_MODULUS - 2 ->
     bind (SuspendedCoroutine_add_ref p) SuspendedCoroutine_release w = Ok tt w)
  /\ (SuspendedCoroutine.m_refcount c = UINTPTR_MODULUS - 1 ->
        exists w', bind (SuspendedCoroutine_add_ref p) SuspendedCoroutine_release w = Fatal w'
          /\ trace w' = trace w)
  /\ (SuspendedCoroutine.m_refcount c = 1 ->
        bind (SuspendedCoroutine_release p) (fun _ => SuspendedCoroutine_add_ref p) w =
          Undefined).
Proof.
  intros Hp. split; [| split]; intros Hn.
  - unfold bind. rewrite (add_ref_live w p c Hp). apply release_after_add_ref; assumption.
  - unfold bind. rewrite (add_ref_live w p c Hp). rewrite Hn.
    replace ((UINTPTR_MODULUS - 1 + 1) mod UINTPTR_MODULUS) with 0 by reflexivity.
    erewrite release_nonpositive; [| simpl; apply lookup_insert_eq | simpl; lia].
    eexists. split; reflexivity.
  - unfold bind. rewrite (release_last w p c Hp Hn).
    unfold SuspendedCoroutine_add_ref, fetch_add, bind, load_coroutine. simpl.
    rewrite lookup_delete_eq. reflexivity.
Qed.

(** [await_suspend] on a receiver that is still [Pending]: one poll, and
    the wrapper is left with the reference that went to the producer. *)
Lemma await_suspend_pending w r (rc : RustFutureReceiver T Future) (next : addr) :
  receivers w !! r = Some rc ->
  m_status rc = FuturePollStatus.Pending ->
  let p := fresh (dom (coroutines w)) in
  let polled := future_poll vtable (m_future rc) (m_result rc) (Some p) in
  let done := wake_status_is_done polled.2 in
  RustAwaiter_await_suspend moved_from vtable {| m_receiver := r |} next w =
    Ok (negb done)
       {| receivers :=
            <[r := {| m_future := polled.1.1; m_result := polled.1.2;
                      m_status := polled.2 |}]> (receivers w);
          senders := senders w;
          coroutines :=
            <[p := {| SuspendedCoroutine.m_refcount := 1;
                      SuspendedCoroutine.m_next :=
                        if done then None else Some (CoroutineHandleContinuation next);
                      SuspendedCoroutine.m_wake_fn := WakeReceiver r |}]> (coroutines w);
          stream_awaiters := stream_awaiters w;
          trace := trace w ++ [EvFuturePoll r (Some p) polled.2] |}.
Proof.
  intros Hr Hs p polled done.
  destruct (new_coroutine w (CoroutineHandleContinuation next) (WakeReceiver r)) as [_ Hnew].
  unfold RustAwaiter_await_suspend. unfold bind at 1. simpl m_receiver. rewrite Hnew.
  fold p. unfold SuspendedCoroutine_initial_suspend. unfold bind at 1.
  unfold SuspendedCoroutine_wake. unfold bind at 1. unfold load_coroutine. simpl.
  rewrite lookup_insert_eq. simpl. rewrite Hr. unfold bind at 1.
  erewrite add_ref_live; [| simpl; apply lookup_insert_eq]. simpl.
  erewrite wake_pending; [| simpl; exact Hr | exact Hs].
  fold polled. destruct polled as [[f res] st] eqn:Hpolled. simpl in done. simpl.
  rewrite insert_insert_eq.
  change ((1 + 1) mod UINTPTR_MODULUS) with 2.
  fold done. destruct done.
  - unfold bind at 1. erewrite forget_live; [| simpl; apply lookup_insert_eq].
    unfold bind. erewrite release_shared; [| simpl; apply lookup_insert_eq | simpl; lia].
    simpl. rewrite !insert_insert_eq. reflexivity.
  - unfold bind at 1. unfold ret at 1.
    unfold bind. erewrite release_shared; [| simpl; apply lookup_insert_eq | simpl; lia].
    simpl. rewrite !insert_insert_eq. reflexivity.
Qed.

Lemma new_awaiter w (future : Future) :
  let r := fresh (dom (receivers w)) in
  receivers w !! r = None
  /\ RustAwaiter_new future w =
       Ok {| m_receiver := r |}
          {| receivers := <[r := RustFutureReceiver_new future]> (receivers w);
             senders := senders w; coroutines := coroutines w;
             stream_awaiters := stream_awaiters w; trace := trace w |}.
Proof. intros r. split; [apply not_elem_of_dom, is_fresh | reflexivity]. Qed.

(** X6. Awaiting a future that is finished at its first poll:
    [await_ready] says no, [await_suspend] polls once and says not to
    suspend, and [await_resume] gives the value the poll wrote, or
    throws the message it wrote. The continuation is neither resumed
    nor destroyed, then or when the producer gives back the waker. *)
Theorem await_finished_future w (future future' : Future) (result : RustFutureResult.t T)
    (status : Z) (next : addr) :
  (forall waker, future_poll vtable future RustFutureResult.uninit waker =
                   (future', result, status)) ->
  status = FuturePollStatus.Complete \/ status = FuturePollStatus.Error ->
  exists (aw : RustAwaiter) (p : addr) w1 w2 w3,
    RustAwaiter_new future w = Ok aw w1
    /\ RustAwaiter_await_ready aw w1 = Ok false w1
    /\ RustAwaiter_await_suspend moved_from vtable aw next w1 = Ok false w2
    /\ trace w2 = trace w ++ [EvFuturePoll (m_receiver aw) (Some p) status]
    /\ (forall v, status = FuturePollStatus.Complete -> result = RustFutureResult.m_result v ->
          RustAwaiter_await_resume aw w2 = Ok v w2)
    /\ (forall s, status = FuturePollStatus.Error -> result = RustFutureResult.m_exception s ->
          exists e, RustAwaiter_await_resume aw w2 = Thrown (ExnError e) w2
            /\ c_string_text (Error.what e) = c_string_text s)
    /\ SuspendedCoroutine_release p w2 = Ok tt w3
    /\ trace w3 = trace w2 ++ [EvDelete p]
    /\ coroutines w3 = coroutines w.
Proof.
  intros Hpoll Hstatus.
  destruct (new_awaiter w future) as [Hfresh Hnew].
  set (r := fresh (dom (receivers w))) in *.
  set (w1 := {| receivers := <[r := RustFutureReceiver_new future]> (receivers w);
                senders := senders w; coroutines := coroutines w;
                stream_awaiters := stream_awaiters w; trace := trace w |}) in *.
  pose proof (await_suspend_pending w1 r (RustFutureReceiver_new future) next
                (lookup_insert_eq _ _ _) eq_refl) as Hsuspend.
  simpl in Hsuspend. rewrite Hpoll in Hsuspend. simpl in Hsuspend.
  assert (wake_status_is_done status = true) as Hdone
    by (apply wake_status_is_done_true; exact Hstatus).
  rewrite Hdone in Hsuspend. simpl in Hsuspend. rewrite insert_insert_eq in Hsuspend.
  assert (coroutines w !! fresh (dom (coroutines w)) = None) as Hp
    by (apply not_elem_of_dom, is_fresh).
  eexists _, (fresh (dom (coroutines w))), w1, _, _.
  split; [exact Hnew |]. split; [reflexivity |]. split; [exact Hsuspend |].
  split; [reflexivity |]. split; [| split; [| split; [| split]]].
  - intros v -> ->. unfold RustAwaiter_await_resume.
    eapply receiver_result_complete. simpl. apply lookup_insert_eq.
  - intros s -> ->. unfold RustAwaiter_await_resume.
    eapply receiver_result_error. simpl. apply lookup_insert_eq.
  - erewrite release_last; [reflexivity | simpl; apply lookup_insert_eq | reflexivity].
  - reflexivity.
  - simpl. apply delete_insert_id. exact Hp.
Qed.

(** A wake through the waker of a [RustAwaiter] whose receiver is still
    [Pending]. *)
Lemma coroutine_wake_pending w p c r (rc : RustFutureReceiver T Future) :
  coroutines w !! p = Some c ->
  SuspendedCoroutine.m_wake_fn c = WakeReceiver r ->
  receivers w !! r = Some rc ->
  m_status rc = FuturePollStatus.Pending ->
  let polled := future_poll vtable (m_future rc) (m_result rc) (Some p) in
  SuspendedCoroutine_wake moved_from vtable p w =
    Ok polled.2
       {| receivers :=
            <[r := {| m_future := polled.1.1; m_result := polled.1.2;
                      m_status := polled.2 |}]> (receivers w);
          senders := senders w;
          coroutines :=
            <[p := SuspendedCoroutine.set_refcount
                     ((SuspendedCoroutine.m_refcount c + 1) mod UINTPTR_MODULUS) c]>
              (coroutines w);
          stream_awaiters := stream_awaiters w;
          trace := trace w ++ [EvFuturePoll r (Some p) polled.2] |}.
Proof.
  intros Hp Hfn Hr Hs polled.
  unfold SuspendedCoroutine_wake. unfold bind at 1. unfold load_coroutine.
  rewrite Hp, Hfn. unfold call_wake_fn. rewrite Hr. unfold bind at 1.
  rewrite (add_ref_live w p c Hp).
  erewrite wake_pending; [| simpl; exact Hr | exact Hs].
  fold polled. destruct polled as [[f res] st]. reflexivity.
Qed.

(** A wake through it once the receiver has left [Pending] changes
    nothing. *)
Lemma coroutine_wake_done w p c r (rc : RustFutureReceiver T Future) :
  coroutines w !! p = Some c ->
  SuspendedCoroutine.m_wake_fn c = WakeReceiver r ->
  receivers w !! r = Some rc ->
  m_status rc <> FuturePollStatus.Pending ->
  1 <= SuspendedCoroutine.m_refcount c <= UINTPTR_MODULUS - 2 ->
  SuspendedCoroutine_wake moved_from vtable p w = Ok FutureWakeStatus.Dead w.
Proof.
  intros Hp Hfn Hr Hs Hn.
  unfold SuspendedCoroutine_wake. unfold bind at 1. unfold load_coroutine.
  rewrite Hp, Hfn. unfold call_wake_fn. rewrite Hr. unfold bind at 1.
  rewrite (add_ref_live w p c Hp).
  erewrite wake_done; [| simpl; exact Hr | exact Hs].
  unfold bind. rewrite (release_after_add_ref w p c Hp Hn). reflexivity.
Qed.

(** X7. Awaiting a future that is pending at first and finished when
    the producer wakes: [await_suspend] says to suspend and keeps the
    continuation; the wake polls again and reports [Complete]; [resume]
    then runs the continuation, once; [await_resume] gives the value; a
    further wake changes nothing; and when the producer has given back
    its two references the wrapper is deleted without touching the
    continuation again. *)
Theorem await_pending_future_then_wake w (future f1 f2 : Future)
    (r1 : RustFutureResult.t T) (v : T) (next : addr) :
  (forall waker, future_poll vtable future RustFutureResult.uninit waker =
                   (f1, r1, FuturePollStatus.Pending)) ->
  (forall waker, future_poll vtable f1 r1 waker =
                   (f2, RustFutureResult.m_result v, FuturePollStatus.Complete)) ->
  exists (aw : RustAwaiter) (p : addr) w1 w2 w3 w4 w5,
    RustAwaiter_new future w = Ok aw w1
    /\ RustAwaiter_await_suspend moved_from vtable aw next w1 = Ok true w2
    /\ SuspendedCoroutine_wake moved_from vtable p w2 = Ok FutureWakeStatus.Complete w3
    /\ SuspendedCoroutine_resume p w3 = Ok tt w4
    /\ trace w4 =
         trace w ++
         [EvFuturePoll (m_receiver aw) (Some p) FuturePollStatus.Pending;
          EvFuturePoll (m_receiver aw) (Some p) FuturePollStatus.Complete;
          EvResume (CoroutineHandleContinuation next)]
    /\ RustAwaiter_await_resume aw w4 = Ok v w4
    /\ SuspendedCoroutine_wake moved_from vtable p w4 = Ok FutureWakeStatus.Dead w4
    /\ run_ref_ops p [Release; Release] w4 = Ok tt w5
    /\ trace w5 = trace w4 ++ [EvDelete p]
    /\ coroutines w5 = coroutines w.
Proof.
  intros Hfirst Hsecond.
  destruct (new_awaiter w future) as [Hfresh Hnew].
  set (r := fresh (dom (receivers w))) in *.
  set (w1 := {| receivers := <[r := RustFutureReceiver_new future]> (receivers w);
                senders := senders w; coroutines := coroutines w;
                stream_awaiters := stream_awaiters w; trace := trace w |}) in *.
  pose proof (await_suspend_pending w1 r (RustFutureReceiver_new future) next
                (lookup_insert_eq _ _ _) eq_refl) as Hsuspend.
  simpl in Hsuspend. rewrite Hfirst in Hsuspend. simpl in Hsuspend.
  rewrite insert_insert_eq in Hsuspend.
  set (p := fresh (dom (coroutines w))) in *.
  assert (coroutines w !! p = None) as Hp by (apply not_elem_of_dom, is_fresh).
  match type of Hsuspend with _ = Ok _ ?x => set (w2 := x) in * end.
  pose proof (coroutine_wake_pending w2 p _ r _ (lookup_insert_eq _ _ _) eq_refl
                (lookup_insert_eq _ _ _) eq_refl) as Hwake.
  simpl in Hwake. rewrite Hsecond in Hwake. simpl in Hwake.
  rewrite !insert_insert_eq in Hwake.
  change ((1 + 1) mod UINTPTR_MODULUS) with 2 in Hwake.
  match type of Hwake with _ = Ok _ ?x => set (w3 := x) in * end.
  pose proof (resume_attached w3 p _ (CoroutineHandleContinuation next)
                (lookup_insert_eq _ _ _) eq_refl) as Hresume.
  simpl in Hresume. rewrite insert_insert_eq in Hresume.
  match type of Hresume with _ = Ok _ ?x => set (w4 := x) in * end.
  exists {| m_receiver := r |}, p, w1, w2, w3, w4.
  eexists. split; [exact Hnew |]. split; [exact Hsuspend |]. split; [exact Hwake |].
  split; [exact Hresume |]. split; [simpl; rewrite <- !app_assoc; reflexivity |].
  split; [| split; [| split; [| split]]].
  - unfold RustAwaiter_await_resume. eapply receiver_result_complete.
    simpl. apply lookup_insert_eq.
  - eapply coroutine_wake_done; simpl;
      [apply lookup_insert_eq | reflexivity | apply lookup_insert_eq | discriminate
      | simpl; unfold UINTPTR_MODULUS; lia].
  - simpl. unfold bind.
    erewrite release_shared; [| simpl; apply lookup_insert_eq | simpl; lia].
    simpl. change ((2 - 1) mod UINTPTR_MODULUS) with 1.
    erewrite release_last; [| simpl; apply lookup_insert_eq | reflexivity].
    reflexivity.
  - simpl. rewrite <- !app_assoc. reflexivity.
  - simpl. rewrite !insert_insert_eq. apply delete_insert_id. exact Hp.
Qed.

(** X8. A poll that reports [Running] on the future side reads as
    [Dead]: [wake] has polled, yet returns the status that means the
    future was already resolved; an [await_suspend] that gets it
    suspends; no later wake polls again; and [get_result] is fatal. *)
Theorem running_poll_reads_as_dead w r (rc : RustFutureReceiver T Future) (next : addr) :
  receivers w !! r = Some rc ->
  m_status rc = FuturePollStatus.Pending ->
  (forall waker, (future_poll vtable (m_future rc) (m_result rc) waker).2 =
                   FuturePollStatus.Running) ->
  (forall coroutine : addr,
     exists w',
       RustFutureReceiver_wake vtable r coroutine w = Ok FutureWakeStatus.Dead w'
       /\ trace w' = trace w ++ [EvFuturePoll r (Some coroutine) FuturePollStatus.Running]
       /\ RustFutureReceiver_get_result r w' = Fatal w'
       /\ forall (wakers : list addr) w'',
            outcome_world (wake_all vtable r wakers w') = Some w'' ->
            poll_statuses r (trace w'') = poll_statuses r (trace w'))
  /\ exists w',
       RustAwaiter_await_suspend moved_from vtable {| m_receiver := r |} next w = Ok true w'
       /\ RustFutureReceiver_get_result r w' = Fatal w'.
Proof.
  intros Hr Hs Hrunning.
  assert (forall (w0 : World T Future Sender) f res,
            receivers w0 !! r =
              Some {| m_future := f; m_result := res; m_status := FuturePollStatus.Running |} ->
            RustFutureReceiver_get_result r w0 = Fatal w0) as Hfatal.
  { intros w0 f res H0. unfold RustFutureReceiver_get_result, bind, load_receiver.
    rewrite H0. reflexivity. }
  split.
  - intros coroutine. rewrite (wake_pending vtable w r rc coroutine Hr Hs).
    specialize (Hrunning (Some coroutine)).
    destruct (future_poll vtable (m_future rc) (m_result rc) (Some coroutine)) as [[f res] st].
    simpl in Hrunning. subst st. eexists. split; [reflexivity |]. split; [reflexivity |].
    split.
    + eapply Hfatal. simpl. apply lookup_insert_eq.
    + intros wakers w'' Hw''.
      eapply (wake_all_done vtable) in Hw'' as (_ & evs & Hevs & Hnone);
        [| simpl; apply lookup_insert_eq | discriminate].
      rewrite Hevs. unfold poll_statuses in *. rewrite omap_app, Hnone, app_nil_r. reflexivity.
  - rewrite (await_suspend_pending w r rc next Hr Hs). simpl.
    specialize (Hrunning (Some (fresh (dom (coroutines w))))).
    destruct (future_poll vtable (m_future rc) (m_result rc)
                (Some (fresh (dom (coroutines w))))) as [[f res] st].
    simpl in Hrunning. subst st. eexists. split; [reflexivity |].
    eapply Hfatal. simpl. apply lookup_insert_eq.
Qed.

(** *** Yielding *)

Lemma new_stream_awaiter w (promise : RustPromiseBase) (value : T) :
  let a := fresh (dom (stream_awaiters w)) in
  stream_awaiters w !! a = None
  /\ RustStreamPromiseBase_yield_value promise value w =
       Ok a {| receivers := receivers w; senders := senders w; coroutines := coroutines w;
               stream_awaiters :=
                 <[a := {| m_sender := m_channel_sender promise; m_value := value |}]>
                   (stream_awaiters w);
               trace := trace w |}.
Proof. intros a. split; [apply not_elem_of_dom, is_fresh | reflexivity]. Qed.

(** [await_suspend] of a yield: one send, and the wrapper is left with
    the reference that went to the producer. *)
Lemma stream_await_suspend w (a : addr) (aw : RustStreamAwaiter T) (sd : Sender) (next : addr) :
  stream_awaiters w !! a = Some aw ->
  senders w !! m_sender aw = Some sd ->
  let p := fresh (dom (coroutines w)) in
  let value := SendResult (RustFutureResult.m_result (m_value aw)) in
  let sent := sender_send vtable sd FuturePollStatus.Running value (Some p) in
  let after (v : T) (k : option Continuation) :=
    {| receivers := receivers w;
       senders := <[m_sender aw := sent.1]> (senders w);
       coroutines :=
         <[p := {| SuspendedCoroutine.m_refcount := 1;
                   SuspendedCoroutine.m_next := k;
                   SuspendedCoroutine.m_wake_fn := WakeStream a |}]> (coroutines w);
       stream_awaiters := <[a := {| m_sender := m_sender aw; m_value := v |}]> (stream_awaiters w);
       trace :=
         trace w ++ [EvSenderSend (m_sender aw) FuturePollStatus.Running value (Some p) sent.2]
    |} in
  (sent.2 = RustSendResult.Sent ->
     RustStreamAwaiter_await_suspend moved_from vtable a next w =
       Ok false (after (moved_from (m_value aw)) None))
  /\ (sent.2 = RustSendResult.Wait ->
        RustStreamAwaiter_await_suspend moved_from vtable a next w =
          Ok true (after (m_value aw) (Some (CoroutineHandleContinuation next)))).
Proof.
  intros Ha Hsd p value sent after.
  destruct (new_coroutine w (CoroutineHandleContinuation next) (WakeStream a)) as [_ Hnew].
  assert (forall status,
            sent.2 = status ->
            RustStreamAwaiter_await_suspend moved_from vtable a next w =
              bind (fun w0 => RustStreamAwaiter_poll_next moved_from vtable a p w0)
                (fun status0 =>
                   bind (if wake_status_is_done status0
                         then forget_coroutine_handle p else ret tt)
                     (fun _ => bind (SuspendedCoroutine_release p)
                                 (fun _ => ret (negb (wake_status_is_done status0)))))
                {| receivers := receivers w; senders := senders w;
                   coroutines :=
                     <[p := {| SuspendedCoroutine.m_refcount := 1;
                               SuspendedCoroutine.m_next :=
                                 Some (CoroutineHandleContinuation next);
                               SuspendedCoroutine.m_wake_fn := WakeStream a |}]> (coroutines w);
                   stream_awaiters := stream_awaiters w; trace := trace w |}) as Hstart.
  { intros status _. unfold RustStreamAwaiter_await_suspend. unfold bind at 1. rewrite Hnew.
    fold p. unfold SuspendedCoroutine_initial_suspend. unfold bind at 1.
    unfold SuspendedCoroutine_wake. unfold bind at 1. unfold load_coroutine. simpl.
    rewrite lookup_insert_eq. reflexivity. }
  split; intros Hsent; rewrite (Hstart _ Hsent); unfold bind at 1;
    (erewrite poll_next_run; [| simpl; exact Ha | simpl; exact Hsd | simpl; apply lookup_insert_eq]);
    simpl; fold value; fold sent; rewrite Hsent; simpl;
    change ((1 + 1) mod UINTPTR_MODULUS) with 2.
  - unfold bind at 1. erewrite forget_live; [| simpl; apply lookup_insert_eq].
    unfold bind. erewrite release_shared; [| simpl; apply lookup_insert_eq | simpl; lia].
    simpl. rewrite !insert_insert_eq. unfold after. rewrite Hsent. reflexivity.
  - unfold bind at 1. unfold ret at 1.
    unfold bind. erewrite release_shared; [| simpl; apply lookup_insert_eq | simpl; lia].
    simpl. rewrite !insert_insert_eq. unfold after. rewrite Hsent. reflexivity.
Qed.

(** A wake through the waker of a yield while its awaiter is alive. *)
Lemma coroutine_wake_stream w p c (a : addr) (aw : RustStreamAwaiter T) (sd : Sender) :
  coroutines w !! p = Some c ->
  SuspendedCoroutine.m_wake_fn c = WakeStream a ->
  stream_awaiters w !! a = Some aw ->
  senders w !! m_sender aw = Some sd ->
  SuspendedCoroutine_wake moved_from vtable p w =
    RustStreamAwaiter_poll_next moved_from vtable a p w.
Proof.
  intros Hp Hfn Ha Hsd. unfold SuspendedCoroutine_wake. unfold bind at 1.
  unfold load_coroutine. rewrite Hp, Hfn. reflexivity.
Qed.

(** X9. A yield that the channel accepts at once: [await_suspend]
    sends the value once, tagged [Running], and says not to suspend; the
    continuation is detached, untouched, and the wrapper stays alive
    with the one reference that went to the producer. [poll_next] keeps
    no record of the send: a wake through that reference while the
    awaiter is alive sends again, and what it sends is the value the
    move left behind. *)
Theorem yield_accepted_at_once w (promise : RustPromiseBase) (sd sd1 : Sender) (v : T)
    (next : addr) :
  senders w !! m_channel_sender promise = Some sd ->
  (forall waker,
     sender_send vtable sd FuturePollStatus.Running
       (SendResult (RustFutureResult.m_result v)) waker = (sd1, RustSendResult.Sent)) ->
  exists (a p : addr) w1 w2,
    RustStreamPromiseBase_yield_value promise v w = Ok a w1
    /\ RustStreamAwaiter_await_ready a w1 = Ok false w1
    /\ RustStreamAwaiter_await_suspend moved_from vtable a next w1 = Ok false w2
    /\ trace w2 =
         trace w ++
         [EvSenderSend (m_channel_sender promise) FuturePollStatus.Running
            (SendResult (RustFutureResult.m_result v)) (Some p) RustSendResult.Sent]
    /\ coroutines w2 !! p =
         Some {| SuspendedCoroutine.m_refcount := 1;
                 SuspendedCoroutine.m_next := None;
                 SuspendedCoroutine.m_wake_fn := WakeStream a |}
    /\ (forall w',
          outcome_world (SuspendedCoroutine_wake moved_from vtable p w2) = Some w' ->
          exists result : Z,
            trace w' =
              trace w2 ++
              [EvSenderSend (m_channel_sender promise) FuturePollStatus.Running
                 (SendResult (RustFutureResult.m_result (moved_from v))) (Some p) result]).
Proof.
  intros Hsd Hsent.
  destruct (new_stream_awaiter w promise v) as [Hfresh Hnew].
  set (a := fresh (dom (stream_awaiters w))) in *.
  match type of Hnew with _ = Ok _ ?x => set (w1 := x) in * end.
  destruct (stream_await_suspend w1 a
              {| m_sender := m_channel_sender promise; m_value := v |} sd next
              (lookup_insert_eq _ _ _) Hsd) as [Hsuspend _].
  simpl in Hsuspend. rewrite Hsent in Hsuspend. simpl in Hsuspend.
  specialize (Hsuspend eq_refl). rewrite insert_insert_eq in Hsuspend.
  set (p := fresh (dom (coroutines w))) in *.
  match type of Hsuspend with _ = Ok _ ?x => set (w2 := x) in * end.
  exists a, p, w1, w2.
  split; [exact Hnew |]. split; [reflexivity |]. split; [exact Hsuspend |].
  split; [reflexivity |]. split; [simpl; apply lookup_insert_eq |].
  intros w' Hw'.
  erewrite coroutine_wake_stream in Hw';
    [| simpl; apply lookup_insert_eq | reflexivity | simpl; apply lookup_insert_eq
     | simpl; apply lookup_insert_eq].
  erewrite poll_next_run in Hw';
    [| simpl; apply lookup_insert_eq | simpl; apply lookup_insert_eq
     | simpl; apply lookup_insert_eq].
  simpl in Hw'.
  eexists.
  repeat match type of Hw' with
         | context [if ?b then _ else _] => destruct b
         end;
    simpl in Hw'; try discriminate; injection Hw' as <-; reflexivity.
Qed.

(** X12. The wake function of a yield holds its awaiter by a plain
    pointer. Once the yield is over and the awaiter, a temporary, is
    gone, the wrapper is still alive with the producer's reference, and
    a wake through it reads the awaiter that no longer exists: the call
    has no defined result, where the wake of a future's awaiter answers
    [Dead]. *)
Theorem wake_after_yield_ended w (promise : RustPromiseBase) (sd sd1 : Sender) (v : T)
    (next : addr) :
  senders w !! m_channel_sender promise = Some sd ->
  (forall waker,
     sender_send vtable sd FuturePollStatus.Running
       (SendResult (RustFutureResult.m_result v)) waker = (sd1, RustSendResult.Sent)) ->
  exists (a p : addr) w1 w2 w3,
    RustStreamPromiseBase_yield_value promise v w = Ok a w1
    /\ RustStreamAwaiter_await_suspend moved_from vtable a next w1 = Ok false w2
    /\ bind (RustStreamAwaiter_await_resume a) (fun _ => RustStreamAwaiter_destroy a) w2 =
         Ok tt w3
    /\ stream_awaiters w3 = stream_awaiters w
    /\ coroutines w3 !! p =
         Some {| SuspendedCoroutine.m_refcount := 1;
                 SuspendedCoroutine.m_next := None;
                 SuspendedCoroutine.m_wake_fn := WakeStream a |}
    /\ SuspendedCoroutine_wake moved_from vtable p w3 = Undefined.
Proof.
  intros Hsd Hsent.
  destruct (new_stream_awaiter w promise v) as [Hfresh Hnew].
  set (a := fresh (dom (stream_awaiters w))) in *.
  match type of Hnew with _ = Ok _ ?x => set (w1 := x) in * end.
  destruct (stream_await_suspend w1 a
              {| m_sender := m_channel_sender promise; m_value := v |} sd next
              (lookup_insert_eq _ _ _) Hsd) as [Hsuspend _].
  simpl in Hsuspend. rewrite Hsent in Hsuspend. simpl in Hsuspend.
  specialize (Hsuspend eq_refl). rewrite insert_insert_eq in Hsuspend.
  set (p := fresh (dom (coroutines w))) in *.
  match type of Hsuspend with _ = Ok _ ?x => set (w2 := x) in * end.
  exists a, p, w1, w2. eexists.
  split; [exact Hnew |]. split; [exact Hsuspend |]. split; [reflexivity |].
  split; [simpl; apply delete_insert_id; exact Hfresh |].
  split; [simpl; apply lookup_insert_eq |].
  unfold SuspendedCoroutine_wake. unfold bind at 1. unfold load_coroutine. simpl.
  rewrite lookup_insert_eq. simpl.
  unfold RustStreamAwaiter_poll_next, noexcept, bind, load_stream_awaiter. simpl.
  rewrite lookup_delete_eq. reflexivity.
Qed.

(** X10. A yield under backpressure: the channel answers [Wait], so
    [await_suspend] says to suspend, keeps the continuation and leaves
    the value with the awaiter; when the producer wakes, the same value
    is sent again and, accepted, the wake reports [Complete]; [resume]
    then runs the continuation, once. *)
Theorem yield_under_backpressure w (promise : RustPromiseBase) (sd sd1 sd2 : Sender) (v : T)
    (next : addr) :
  senders w !! m_channel_sender promise = Some sd ->
  (forall waker,
     sender_send vtable sd FuturePollStatus.Running
       (SendResult (RustFutureResult.m_result v)) waker = (sd1, RustSendResult.Wait)) ->
  (forall waker,
     sender_send vtable sd1 FuturePollStatus.Running
       (SendResult (RustFutureResult.m_result v)) waker = (sd2, RustSendResult.Sent)) ->
  exists (a p : addr) w1 w2 w3 w4,
    RustStreamPromiseBase_yield_value promise v w = Ok a w1
    /\ RustStreamAwaiter_await_suspend moved_from vtable a next w1 = Ok true w2
    /\ stream_awaiters w2 !! a = Some {| m_sender := m_channel_sender promise; m_value := v |}
    /\ SuspendedCoroutine_wake moved_from vtable p w2 = Ok FutureWakeStatus.Complete w3
    /\ SuspendedCoroutine_resume p w3 = Ok tt w4
    /\ trace w4 =
         trace w ++
         [EvSenderSend (m_channel_sender promise) FuturePollStatus.Running
            (SendResult (RustFutureResult.m_result v)) (Some p) RustSendResult.Wait;
          EvSenderSend (m_channel_sender promise) FuturePollStatus.Running
            (SendResult (RustFutureResult.m_result v)) (Some p) RustSendResult.Sent;
          EvResume (CoroutineHandleContinuation next)]
    /\ senders w4 !! m_channel_sender promise = Some sd2.
Proof.
  intros Hsd Hwait Hsent.
  destruct (new_stream_awaiter w promise v) as [Hfresh Hnew].
  set (a := fresh (dom (stream_awaiters w))) in *.
  match type of Hnew with _ = Ok _ ?x => set (w1 := x) in * end.
  destruct (stream_await_suspend w1 a
              {| m_sender := m_channel_sender promise; m_value := v |} sd next
              (lookup_insert_eq _ _ _) Hsd) as [_ Hsuspend].
  simpl in Hsuspend. rewrite Hwait in Hsuspend. simpl in Hsuspend.
  specialize (Hsuspend eq_refl). rewrite insert_insert_eq in Hsuspend.
  set (p := fresh (dom (coroutines w))) in *.
  match type of Hsuspend with _ = Ok _ ?x => set (w2 := x) in * end.
  assert (exists w3,
            SuspendedCoroutine_wake moved_from vtable p w2 = Ok FutureWakeStatus.Complete w3
            /\ coroutines w3 !! p =
                 Some {| SuspendedCoroutine.m_refcount := 2;
                         SuspendedCoroutine.m_next := Some (CoroutineHandleContinuation next);
                         SuspendedCoroutine.m_wake_fn := WakeStream a |}
            /\ trace w3 =
                 trace w2 ++
                 [EvSenderSend (m_channel_sender promise) FuturePollStatus.Running
                    (SendResult (RustFutureResult.m_result v)) (Some p) RustSendResult.Sent]
            /\ senders w3 !! m_channel_sender promise = Some sd2) as (w3 & Hwake & Hp3 & Htr3 & Hsd3).
  { erewrite coroutine_wake_stream;
      [| simpl; apply lookup_insert_eq | reflexivity | simpl; apply lookup_insert_eq
       | simpl; apply lookup_insert_eq].
    erewrite poll_next_run;
      [| simpl; apply lookup_insert_eq | simpl; apply lookup_insert_eq
       | simpl; apply lookup_insert_eq].
    simpl. rewrite Hsent. simpl. eexists. split; [reflexivity |]. simpl.
    split; [rewrite lookup_insert_eq; reflexivity |].
    split; [reflexivity | apply lookup_insert_eq]. }
  pose proof (resume_attached w3 p _ (CoroutineHandleContinuation next) Hp3 eq_refl)
    as Hresume.
  exists a, p, w1, w2, w3. eexists.
  split; [exact Hnew |]. split; [exact Hsuspend |].
  split; [simpl; apply lookup_insert_eq |]. split; [exact Hwake |].
  split; [exact Hresume |]. simpl. rewrite Htr3. simpl.
  split; [rewrite <- !app_assoc; reflexivity | exact Hsd3].
Qed.

Lemma yield_all_accepted (promise : RustPromiseBase) (next : addr) (values : list T) :
  (forall sd status value waker,
     (sender_send vtable sd status value waker).2 = RustSendResult.Sent) ->
  forall w,
    is_Some (senders w !! m_channel_sender promise) ->
    exists w' evs,
      yield_all moved_from vtable promise next values w = Ok true w'
      /\ trace w' =
           trace w ++ evs ++
           [EvSenderSend (m_channel_sender promise) FuturePollStatus.Complete SendNull None
              RustSendResult.Sent]
      /\ yielded_values evs = values
      /\ length evs = length values
      /\ continuation_transitions evs = 0%nat
      /\ stream_awaiters w' = stream_awaiters w.
Proof.
  intros Haccept. induction values as [|v rest IH]; intros w [sd Hsd].
  - simpl. unfold RustPromise_return_void, bind.
    rewrite (call_sender_send_live vtable w _ sd _ _ _ Hsd). rewrite Haccept.
    eexists _, []. split; [reflexivity |]. simpl. repeat split.
  - destruct (new_stream_awaiter w promise v) as [Hfresh Hnew].
    set (a := fresh (dom (stream_awaiters w))) in *.
    match type of Hnew with _ = Ok _ ?x => set (w1 := x) in * end.
    destruct (stream_await_suspend w1 a
                {| m_sender := m_channel_sender promise; m_value := v |} sd next
                (lookup_insert_eq _ _ _) Hsd) as [Hsuspend _].
    specialize (Hsuspend (Haccept _ _ _ _)). simpl in Hsuspend.
    rewrite Haccept in Hsuspend. rewrite insert_insert_eq in Hsuspend.
    set (p := fresh (dom (coroutines w))) in *.
    match type of Hsuspend with _ = Ok _ ?x => set (w2 := x) in * end.
    set (w3 := set_stream_awaiters (delete a) w2).
    destruct (IH w3) as (w' & evs & Hrun & Htrace & Hvalues & Hlen & Hcont & Hawaiters).
    { simpl. rewrite lookup_insert_eq. eauto. }
    exists w',
      (EvSenderSend (m_channel_sender promise) FuturePollStatus.Running
         (SendResult (RustFutureResult.m_result v)) (Some p) RustSendResult.Sent :: evs).
    split.
    + simpl yield_all. unfold bind at 1. rewrite Hnew.
      unfold bind at 1. unfold RustStreamAwaiter_await_ready at 1. unfold ret at 1.
      unfold bind at 1. rewrite Hsuspend.
      unfold bind at 1. unfold RustStreamAwaiter_await_resume at 1. unfold ret at 1.
      unfold bind at 1. unfold RustStreamAwaiter_destroy at 1. exact Hrun.
    + split; [rewrite Htrace; simpl; rewrite <- app_assoc; reflexivity |].
      split; [rewrite <- Hvalues; reflexivity |].
      split; [simpl; rewrite Hlen; reflexivity |].
      split; [exact Hcont |].
      rewrite Hawaiters. simpl. apply delete_insert_id. exact Hfresh.
Qed.

(** X11. A coroutine that yields a list of values into a channel that
    accepts every send at once runs to its [co_return] without ever
    suspending: the values are sent tagged [Running], each once, in the
    order in which they were yielded, and one send tagged [Complete]
    with a null payload follows them; no continuation is resumed or
    destroyed, and no awaiter outlives its yield. *)
Theorem stream_yields_in_order w (promise : RustPromiseBase) (sd : Sender) (next : addr)
    (values : list T) :
  senders w !! m_channel_sender promise = Some sd ->
  (forall sd' status value waker,
     (sender_send vtable sd' status value waker).2 = RustSendResult.Sent) ->
  exists w' evs,
    yield_all moved_from vtable promise next values w = Ok true w'
    /\ trace w' =
         trace w ++ evs ++
         [EvSenderSend (m_channel_sender promise) FuturePollStatus.Complete SendNull None
            RustSendResult.Sent]
    /\ yielded_values evs = values
    /\ length evs = length values
    /\ continuation_transitions evs = 0%nat
    /\ stream_awaiters w' = stream_awaiters w.
Proof.
  intros Hsd Haccept. apply yield_all_accepted; [exact Haccept | eauto].
Qed.

End LifecycleProperties.

(** * The further properties on concrete inputs *)

Lemma two_errors_owned : ErrorStore.owned (two_errors "boom" "bust").
Proof.
  unfold two_errors. split; [| split].
  - intros self array. simpl. rewrite !lookup_insert, lookup_empty.
    repeat case_decide; intros [= <-]; try done; eexists; (split; reflexivity).
  - intros self self' array. simpl. rewrite !lookup_insert, !lookup_empty.
    repeat case_decide; subst; try done; intros [= <-]; done.
  - intros array. simpl. rewrite !lookup_insert, lookup_empty.
    repeat case_decide; subst; try (intros [? ?]; done); intros _.
    + exists 1%positive. reflexivity.
    + exists 2%positive. reflexivity.
Qed.

Example scenario_error_copy_and_move :
  exists m1 m2 m3,
    ErrorStore.copy_construct 3 1 (two_errors "boom" "bust") = Some m1
    /\ ErrorStore.what_text 3 m1 = Some "boom"%string
    /\ ErrorStore.move_assign 3 2 m1 = Some m2
    /\ ErrorStore.what_text 3 m2 = Some "bust"%string
    /\ ErrorStore.what 2 m2 = Some None
    /\ (ErrorStore.destructor 3 m2 ≫= ErrorStore.destructor 2) ≫= ErrorStore.destructor 1 =
         Some m3
    /\ ErrorStore.objects m3 = ∅
    /\ size (ErrorStore.arrays m3) = 1%nat.
Proof. eexists _, _, _. repeat split; vm_compute; reflexivity. Qed.

(** ** X1 *)

Lemma Error_copies_are_deep_witness :
  exists m',
    ErrorStore.copy_construct 3 1 (two_errors "boom" "bust") = Some m'
    /\ ErrorStore.owned m'
    /\ ErrorStore.what_text 3 m' = Some "boom"%string.
Proof.
  destruct (Error_copies_are_deep (two_errors "boom" "bust") 3 1 11 two_errors_owned
              eq_refl ltac:(discriminate)) as [Hnew _].
  destruct (Hnew eq_refl) as (_ & m' & Hcopy & Howned & Htext & _).
  exists m'. split; [exact Hcopy |]. split; [exact Howned |].
  rewrite Htext. reflexivity.
Defined.

(** ** X2 *)

Lemma Error_move_and_destroy_keep_order_witness :
  exists m',
    ErrorStore.move_construct 3 1 (two_errors "boom" "bust") = Some m'
    /\ ErrorStore.owned m'
    /\ ErrorStore.what 3 m' = Some (Some 11%positive)
    /\ ErrorStore.what 1 m' = Some None.
Proof.
  destruct (Error_move_and_destroy_keep_order (two_errors "boom" "bust") 3 1
              two_errors_owned (ex_intro _ (Some 11%positive) eq_refl)) as [Hmove _].
  destruct (Hmove eq_refl) as (m' & Hrun & Howned & Hself & Hother & _).
  exists m'. split; [exact Hrun |]. split; [exact Howned |]. split; [exact Hself | exact Hother].
Defined.

(** ** X4 *)

Lemma Error_move_assign_leaks_witness :
  exists m',
    ErrorStore.move_assign 1 2 (two_errors "boom" "bust") = Some m'
    /\ ErrorStore.leaked m' 11 = true.
Proof.
  destruct (Error_move_assign_leaks (two_errors "boom" "bust") 1 2 11 two_errors_owned
              eq_refl (ex_intro _ (Some 12%positive) eq_refl))
    as (m' & Hrun & _ & _ & _ & Hleak & _).
  exists m'. split; [exact Hrun | exact Hleak].
Defined.

(** ** X5 *)

Lemma add_ref_release_round_trip_witness :
  bind (SuspendedCoroutine_add_ref 1) SuspendedCoroutine_release (refcount_world 1) =
    Ok tt (refcount_world 1).
Proof.
  destruct (add_ref_release_round_trip (refcount_world 1) 1%positive (waiting_coroutine 1)
              eq_refl) as (Hround & _ & _).
  apply Hround. unfold UINTPTR_MODULUS. simpl. lia.
Defined.

(** ** X6 *)

Lemma await_finished_future_witness :
  exists (aw : RustAwaiter) w1 w2,
    RustAwaiter_new [(RustFutureResult.m_result 42, FuturePollStatus.Complete)]
      (scripted_world [] [] [] []) = Ok aw w1
    /\ RustAwaiter_await_suspend scripted_moved_from scripted_vtable aw 9 w1 = Ok false w2
    /\ RustAwaiter_await_resume aw w2 = Ok 42 w2.
Proof.
  destruct (await_finished_future scripted_moved_from scripted_vtable
              (scripted_world [] [] [] [])
              [(RustFutureResult.m_result 42, FuturePollStatus.Complete)] []
              (RustFutureResult.m_result 42) FuturePollStatus.Complete 9
              (fun _ => eq_refl) (or_introl eq_refl))
    as (aw & p & w1 & w2 & w3 & Hnew & _ & Hsuspend & _ & Hvalue & _).
  exists aw, w1, w2. split; [exact Hnew |]. split; [exact Hsuspend |].
  exact (Hvalue 42 eq_refl eq_refl).
Defined.

(** ** X7 *)

Lemma await_pending_future_then_wake_witness :
  exists (aw : RustAwaiter) (p : addr) w1 w2 w3 w4,
    RustAwaiter_new [(RustFutureResult.uninit, FuturePollStatus.Pending);
                     (RustFutureResult.m_result 42, FuturePollStatus.Complete)]
      (scripted_world [] [] [] []) = Ok aw w1
    /\ RustAwaiter_await_suspend scripted_moved_from scripted_vtable aw 9 w1 = Ok true w2
    /\ SuspendedCoroutine_wake scripted_moved_from scripted_vtable p w2 =
         Ok FutureWakeStatus.Complete w3
    /\ SuspendedCoroutine_resume p w3 = Ok tt w4
    /\ RustAwaiter_await_resume aw w4 = Ok 42 w4.
Proof.
  destruct (await_pending_future_then_wake scripted_moved_from scripted_vtable
              (scripted_world [] [] [] [])
              [(RustFutureResult.uninit, FuturePollStatus.Pending);
               (RustFutureResult.m_result 42, FuturePollStatus.Complete)]
              [(RustFutureResult.m_result 42, FuturePollStatus.Complete)] []
              RustFutureResult.uninit 42 9 (fun _ => eq_refl) (fun _ => eq_refl))
    as (aw & p & w1 & w2 & w3 & w4 & w5 & Hnew & Hsuspend & Hwake & Hresume & _ & Hvalue & _).
  exists aw, p, w1, w2, w3, w4. repeat split; assumption.
Defined.

(** ** X8 *)

Lemma running_poll_reads_as_dead_witness :
  exists w',
    RustFutureReceiver_wake scripted_vtable 2 1
      (awaiting_world [(RustFutureResult.uninit, FuturePollStatus.Running)]) =
      Ok FutureWakeStatus.Dead w'
    /\ RustFutureReceiver_get_result 2 w' = Fatal w'.
Proof.
  destruct (running_poll_reads_as_dead scripted_moved_from scripted_vtable
              (awaiting_world [(RustFutureResult.uninit, FuturePollStatus.Running)])
              2%positive
              (RustFutureReceiver_new [(RustFutureResult.uninit, FuturePollStatus.Running)])
              9%positive eq_refl eq_refl (fun _ => eq_refl)) as [Hwake _].
  destruct (Hwake 1%positive) as (w' & Hrun & _ & Hfatal & _).
  exists w'. split; [exact Hrun | exact Hfatal].
Defined.

(** ** X9 *)

Lemma yield_accepted_at_once_witness :
  exists (a p : addr) w1 w2,
    RustStreamPromiseBase_yield_value scripted_promise 7
      (scripted_world [] [(4%positive, [])] [] []) = Ok a w1
    /\ RustStreamAwaiter_await_suspend scripted_moved_from scripted_vtable a 9 w1 = Ok false w2
    /\ coroutines w2 !! p =
         Some {| SuspendedCoroutine.m_refcount := 1;
                 SuspendedCoroutine.m_next := None;
                 SuspendedCoroutine.m_wake_fn := WakeStream a |}.
Proof.
  destruct (yield_accepted_at_once scripted_moved_from scripted_vtable
              (scripted_world [] [(4%positive, [])] [] []) scripted_promise [] [] 7 9
              eq_refl (fun _ => eq_refl))
    as (a & p & w1 & w2 & Hyield & _ & Hsuspend & _ & Hwrapper & _).
  exists a, p, w1, w2. repeat split; assumption.
Defined.

(** ** X10 *)

Lemma yield_under_backpressure_witness :
  exists (a p : addr) w1 w2 w3,
    RustStreamPromiseBase_yield_value scripted_promise 7
      (scripted_world [] [(4%positive, [RustSendResult.Wait; RustSendResult.Sent])] [] []) =
      Ok a w1
    /\ RustStreamAwaiter_await_suspend scripted_moved_from scripted_vtable a 9 w1 = Ok true w2
    /\ SuspendedCoroutine_wake scripted_moved_from scripted_vtable p w2 =
         Ok FutureWakeStatus.Complete w3.
Proof.
  destruct (yield_under_backpressure scripted_moved_from scripted_vtable
              (scripted_world [] [(4%positive, [RustSendResult.Wait; RustSendResult.Sent])]
                 [] [])
              scripted_promise [RustSendResult.Wait; RustSendResult.Sent]
              [RustSendResult.Sent] [] 7 9 eq_refl (fun _ => eq_refl) (fun _ => eq_refl))
    as (a & p & w1 & w2 & w3 & w4 & Hyield & Hsuspend & _ & Hwake & _).
  exists a, p, w1, w2, w3. repeat split; assumption.
Defined.

(** ** X11 *)

Lemma stream_yields_in_order_witness :
  exists w' evs,
    yield_all scripted_moved_from accepting_vtable scripted_promise 9 [1; 2; 3]
      (scripted_world [] [(4%positive, [])] [] []) = Ok true w'
    /\ trace w' =
         evs ++ [EvSenderSend 4 FuturePollStatus.Complete SendNull None RustSendResult.Sent]
    /\ yielded_values evs = [1; 2; 3].
Proof.
  destruct (stream_yields_in_order scripted_moved_from accepting_vtable
              (scripted_world [] [(4%positive, [])] [] []) scripted_promise [] 9 [1; 2; 3]
              eq_refl (fun _ _ _ _ => eq_refl))
    as (w' & evs & Hrun & Htrace & Hvalues & _).
  exists w', evs. split; [exact Hrun |]. split; [exact Htrace | exact Hvalues].
Defined.

(** ** X12 *)

Lemma wake_after_yield_ended_witness :
  exists (a p : addr) w1 w2 w3,
    RustStreamPromiseBase_yield_value scripted_promise 7
      (scripted_world [] [(4%positive, [])] [] []) = Ok a w1
    /\ RustStreamAwaiter_await_suspend scripted_moved_from scripted_vtable a 9 w1 = Ok false w2
    /\ bind (RustStreamAwaiter_await_resume a) (fun _ => RustStreamAwaiter_destroy a) w2 =
         Ok tt w3
    /\ SuspendedCoroutine_wake scripted_moved_from scripted_vtable p w3 = Undefined.
Proof.
  destruct (wake_after_yield_ended scripted_moved_from scripted_vtable
              (scripted_world [] [(4%positive, [])] [] []) scripted_promise [] [] 7 9
              eq_refl (fun _ => eq_refl))
    as (a & p & w1 & w2 & w3 & Hyield & Hsuspend & Hend & _ & _ & Hwake).
  exists a, p, w1, w2, w3. repeat split; assumption.
Defined.
